(** * Verification of the PDF markdown layout engine

    Shallow embedding of [src/utils/pdfMarkdownParser.ts]: the inline style
    tokenizer, the indentation rule, the forced word splitter, the greedy
    line breaker, the line renderer / justifier and the page driver.

    Conventions of the embedding.
    - JavaScript numbers are modelled by exact rationals [Q]; floating-point
      rounding is not modelled.
    - JavaScript strings are modelled by [string], one [ascii] per code unit
      (code units 0..255).
    - The jsPDF document is an explicit state [Doc] (current font name, font
      style and font size, the page height, and the log of [doc.text] calls)
      passed through every function that touches it.  Glyph measurement is a
      parameter [measure] of the development: [doc.getTextWidth] reads the
      current font name, style and size and asks [measure]. *)

From Stdlib Require Import Bool List Arith Lia ZArith QArith Lqa Ascii String.
Import ListNotations.

Open Scope string_scope.
Open Scope list_scope.
Open Scope Q_scope.

(** ** Strings *)

Module Str.

Definition nonEmpty (s : string) : bool :=
  match s with
  | EmptyString => false
  | String _ _ => true
  end.

(** [s + c] for a single code unit [c]. *)
Definition snoc (s : string) (c : ascii) : string :=
  (s ++ String c EmptyString)%string.

(** JavaScript [\s] and the characters removed by [String.prototype.trim],
    restricted to code units below 256: TAB, LF, VT, FF, CR, space, NBSP. *)
Definition isSpace (c : ascii) : bool :=
  let n := nat_of_ascii c in
  ((9 <=? n)%nat && (n <=? 13)%nat) || (n =? 32)%nat || (n =? 160)%nat.

(** Line terminators, which [.] does not match: LF and CR. *)
Definition isLineTerminator (c : ascii) : bool :=
  let n := nat_of_ascii c in
  (n =? 10)%nat || (n =? 13)%nat.

Definition isDigit (c : ascii) : bool :=
  let n := nat_of_ascii c in
  (48 <=? n)%nat && (n <=? 57)%nat.

Definition space : string := " ".
Definition hyphen : string := "-".
Definition newline : string := String "010"%char EmptyString.

Fixpoint forallb (p : ascii -> bool) (s : string) : bool :=
  match s with
  | EmptyString => true
  | String c r => p c && forallb p r
  end.

Fixpoint dropWhile (p : ascii -> bool) (s : string) : string :=
  match s with
  | EmptyString => EmptyString
  | String c r => if p c then dropWhile p r else s
  end.

Fixpoint takeWhile (p : ascii -> bool) (s : string) : string :=
  match s with
  | EmptyString => EmptyString
  | String c r => if p c then String c (takeWhile p r) else EmptyString
  end.

Fixpoint rev_acc (s acc : string) : string :=
  match s with
  | EmptyString => acc
  | String c r => rev_acc r (String c acc)
  end.

Definition rev (s : string) : string := rev_acc s EmptyString.

(** [s.trim()] *)
Definition trim (s : string) : string :=
  rev (dropWhile isSpace (rev (dropWhile isSpace s))).

Fixpoint drop (n : nat) (s : string) : string :=
  match n, s with
  | O, _ => s
  | S _, EmptyString => EmptyString
  | S k, String _ r => drop k r
  end.

End Str.

(** ** Data model *)

(** Keys of the [headingSizes] table of [applyStyle].  A [heading] of [null]
    (or the falsy [0]) is [None]; the classifier only produces levels 1..6. *)
Inductive HeadingLevel := H1 | H2 | H3 | H4 | H5 | H6.

Inductive ListType := ordered | unordered.

(** [interface TextStyle]; the field [list] is spelled [list_]. *)
Record TextStyle := mkTextStyle {
  bold : bool;
  italic : bool;
  heading : option HeadingLevel;
  list_ : bool;
  listType : option ListType;
  listLevel : Z;
  indentation : Q
}.

(** [interface TextSegment] *)
Record TextSegment := mkSeg {
  text : string;
  style : TextStyle
}.

Definition Line := list TextSegment.

(** ['left' | 'center' | 'right' | 'justify'] *)
Module Align.
Inductive t := left | center | right | justify.
End Align.

(** [interface PDFMarkdownOptions]; [align] is optional. *)
Record PDFMarkdownOptions := mkOptions {
  maxWidth : Q;
  align : option Align.t;
  fontSize : Q;
  lineHeight : Q;
  font : string
}.

(** ** The drawing surface *)

Inductive FontStyle := normal | fs_bold | fs_italic | bolditalic.

(** One [doc.text(text, x, y)] call, with the font state it was issued in. *)
Record DrawCall := mkDraw {
  dc_text : string;
  dc_x : Q;
  dc_y : Q;
  dc_font : string;
  dc_style : FontStyle;
  dc_size : Q
}.

Record Doc := mkDoc {
  docFont : string;
  docFontStyle : FontStyle;
  docFontSize : Q;
  pageHeight : Q;
  calls : list DrawCall
}.

Module JsPDF.

Definition setFont (f : string) (fs : FontStyle) (d : Doc) : Doc :=
  mkDoc f fs (docFontSize d) (pageHeight d) (calls d).

Definition setFontSize (sz : Q) (d : Doc) : Doc :=
  mkDoc (docFont d) (docFontStyle d) sz (pageHeight d) (calls d).

Definition getFontSize (d : Doc) : Q := docFontSize d.

Definition getFontName (d : Doc) : string := docFont d.

Definition drawText (t : string) (x y : Q) (d : Doc) : Doc :=
  mkDoc (docFont d) (docFontStyle d) (docFontSize d) (pageHeight d)
        (calls d ++ [mkDraw t x y (docFont d) (docFontStyle d) (docFontSize d)]).

End JsPDF.

(** ** applyStyle *)

Definition fontStyleOf (s : TextStyle) : FontStyle :=
  if bold s && italic s then bolditalic
  else if bold s then fs_bold
  else if italic s then fs_italic
  else normal.

Definition headingSizes (baseFontSize : Q) (h : HeadingLevel) : Q :=
  match h with
  | H1 => baseFontSize * 2
  | H2 => baseFontSize * (15 # 10)
  | H3 => baseFontSize * (117 # 100)
  | H4 => baseFontSize * 1
  | H5 => baseFontSize * (83 # 100)
  | H6 => baseFontSize * (67 # 100)
  end.

Definition applyStyle (d : Doc) (s : TextStyle) (baseFontSize : Q) (f : string) : Doc :=
  let d1 := JsPDF.setFont f (fontStyleOf s) d in
  match heading s with
  | Some h => JsPDF.setFontSize (headingSizes baseFontSize h) d1
  | None => JsPDF.setFontSize baseFontSize d1
  end.

(** ** parseInlineMarkdown *)

Definition initialStyle : TextStyle :=
  mkTextStyle false false None false None 0%Z 0.

Definition toggleBold (s : TextStyle) : TextStyle :=
  mkTextStyle (negb (bold s)) (italic s) (heading s) (list_ s) (listType s)
              (listLevel s) (indentation s).

Definition toggleItalic (s : TextStyle) : TextStyle :=
  mkTextStyle (bold s) (negb (italic s)) (heading s) (list_ s) (listType s)
              (listLevel s) (indentation s).

Definition isMarker (c : ascii) : bool :=
  Ascii.eqb c "*"%char || Ascii.eqb c "_"%char.

(** [if (currentText) segments.push({ text: currentText, style: {...currentStyle} })] *)
Definition flushText (currentText : string) (currentStyle : TextStyle)
    (segments : list TextSegment) : list TextSegment :=
  if Str.nonEmpty currentText
  then segments ++ [mkSeg currentText currentStyle]
  else segments.

(** The [while (i < text.length)] loop, on the suffix [text.slice(i)]. *)
Fixpoint scanInline (rest : string) (currentText : string)
    (currentStyle : TextStyle) (segments : list TextSegment) : list TextSegment :=
  match rest with
  | EmptyString => flushText currentText currentStyle segments
  | String c rest1 =>
      if isMarker c then
        let segments1 := flushText currentText currentStyle segments in
        match rest1 with
        | String c1 rest2 =>
            if Ascii.eqb c1 c
            then scanInline rest2 EmptyString (toggleBold currentStyle) segments1
            else scanInline rest1 EmptyString (toggleItalic currentStyle) segments1
        | EmptyString =>
            scanInline rest1 EmptyString (toggleItalic currentStyle) segments1
        end
      else scanInline rest1 (Str.snoc currentText c) currentStyle segments
  end.

Definition parseInlineMarkdown (t : string) : list TextSegment :=
  scanInline t EmptyString initialStyle [].

(** ** Numbers *)

Module Num.

(** [a <= b] and [a > b] on JavaScript numbers. *)
Definition leb (a b : Q) : bool := Qle_bool a b.
Definition gtb (a b : Q) : bool := negb (Qle_bool a b).

(** [Math.max(a, b)] *)
Definition max (a b : Q) : Q := if Qle_bool a b then b else a.

Definition ofNat (n : nat) : Q := inject_Z (Z.of_nat n).

End Num.

(** ** calculateIndentation *)

(** [text.match(/^\s*/)?.[0].length || 0] *)
Definition leadingWhitespace (t : string) : nat :=
  String.length (Str.takeWhile Str.isSpace t).

Definition isBullet (c : ascii) : bool :=
  Ascii.eqb c "-"%char || Ascii.eqb c "*"%char.

(** Does the string start with [\s+]? *)
Definition startsWithSpace (t : string) : bool :=
  match t with
  | EmptyString => false
  | String c _ => Str.isSpace c
  end.

(** Does the string match [^(?:[-*]|\d+\.)\s+]? *)
Definition startsWithListMarker (t : string) : bool :=
  match t with
  | EmptyString => false
  | String c r =>
      if isBullet c then startsWithSpace r
      else if Str.isDigit c then
        match Str.dropWhile Str.isDigit r with
        | String "."%char r1 => startsWithSpace r1
        | _ => false
        end
      else false
  end.

(** [text.match(/^(\s*(?:[-*]|\d+\.)\s+)/)] as a test. *)
Definition listMatch (t : string) : bool :=
  startsWithListMarker (Str.dropWhile Str.isSpace t).

Definition calculateIndentation (t : string) : Q :=
  let indentation0 := 0 in
  let baseIndent := Num.ofNat (leadingWhitespace t / 2) * (1 # 4) in
  let indentation1 := indentation0 + baseIndent in
  if listMatch t then indentation1 + (1 # 4)
  else if Num.gtb baseIndent 0 then indentation1 + (3 # 4)
  else if (0 <? String.length (Str.trim t))%nat then indentation1 + (1 # 4)
  else indentation1.

(** ** JavaScript arrays and [split] *)

(** [a[i] = v]: overwrite inside the array, extend it (with holes) beyond.
    A hole of an array of lines is rendered as the empty line, which
    [filter(line => line.length > 0)] skips as it skips a hole. *)
Definition jsSet {A : Type} (hole : A) (l : list A) (i : nat) (v : A) : list A :=
  if (i <? List.length l)%nat
  then firstn i l ++ v :: skipn (S i) l
  else l ++ repeat hole (i - List.length l) ++ [v].

(** [s.split(/\s+/)], scanning [s] with the pending piece [cur]; [inSep]
    tells that the previous code unit was part of the separator. *)
Fixpoint splitWsFrom (s : string) (cur : string) (inSep : bool) : list string :=
  match s with
  | EmptyString => [cur]
  | String c r =>
      if Str.isSpace c then
        if inSep then splitWsFrom r EmptyString true
        else cur :: splitWsFrom r EmptyString true
      else splitWsFrom r (Str.snoc cur c) false
  end.

Definition splitWs (s : string) : list string := splitWsFrom s EmptyString false.

(** [s.split('\n')] *)
Fixpoint splitLinesFrom (s : string) (cur : string) : list string :=
  match s with
  | EmptyString => [cur]
  | String c r =>
      if Ascii.eqb c "010"%char then cur :: splitLinesFrom r EmptyString
      else splitLinesFrom r (Str.snoc cur c)
  end.

Definition splitLines (s : string) : list string := splitLinesFrom s EmptyString.

(** [text.replace(/---/g, '\n')] *)
Fixpoint replaceDashes (s : string) : string :=
  match s with
  | String "-"%char (String "-"%char (String "-"%char r)) =>
      String "010"%char (replaceDashes r)
  | String c r => String c (replaceDashes r)
  | EmptyString => EmptyString
  end.

(** [text.replace(/\n{2,}/g, '\n')]: every maximal run of two or more LF
    becomes one LF (and a single LF stays). *)
Fixpoint collapseNewlines (s : string) : string :=
  match s with
  | EmptyString => EmptyString
  | String c r =>
      if Ascii.eqb c "010"%char then
        match r with
        | String c1 _ =>
            if Ascii.eqb c1 "010"%char then collapseNewlines r
            else String c (collapseNewlines r)
        | EmptyString => String c EmptyString
        end
      else String c (collapseNewlines r)
  end.

(** A measurement used by the examples: every code unit is [size / 2] wide,
    whatever the font. *)
Definition monoMeasure (_ : string) (_ : FontStyle) (size : Q) (t : string) : Q :=
  Num.ofNat (String.length t) * (size / 2).

Definition plainDoc (size : Q) : Doc := mkDoc "Helvetica" normal size 297 [].

(** ** Block patterns of the page driver *)

Definition isHash (c : ascii) : bool := Ascii.eqb c "#"%char.

(** [(.+)$]: one or more code units, none a line terminator, up to the end. *)
Definition dotPlus (s : string) : bool :=
  Str.nonEmpty s && Str.forallb (fun c => negb (Str.isLineTerminator c)) s.

(** [\s+(.+)$] at the start of [s], consuming [k] separators or, when the
    rest does not match, fewer (the backtracking order of the greedy [\s+]). *)
Fixpoint spacesThenContent (k : nat) (s : string) : option string :=
  match k with
  | O => None
  | S k1 =>
      let content := Str.drop k s in
      if dotPlus content then Some content else spacesThenContent k1 s
  end.

Definition matchSpacesContent (s : string) : option string :=
  spacesThenContent (leadingWhitespace s) s.

(** [line.match(/^(#{1,6})\s+(.+)$/)]: the level and the content.  Fewer
    hashes than the whole run can never be followed by [\s]. *)
Definition headerMatch (line : string) : option (nat * string) :=
  let level := String.length (Str.takeWhile isHash line) in
  if ((1 <=? level) && (level <=? 6))%nat then
    match matchSpacesContent (Str.drop level line) with
    | Some content => Some (level, content)
    | None => None
    end
  else None.

(** [line.match(/^(\d+)\.\s+(.+)$/)]: the number as written and the content. *)
Definition orderedListMatch (line : string) : option (string * string) :=
  let listNumber := Str.takeWhile Str.isDigit line in
  if Str.nonEmpty listNumber then
    match Str.dropWhile Str.isDigit line with
    | String "."%char r =>
        match matchSpacesContent r with
        | Some content => Some (listNumber, content)
        | None => None
        end
    | _ => None
    end
  else None.

(** [line.match(/^[-*]\s+(.+)$/)]: the content. *)
Definition unorderedListMatch (line : string) : option string :=
  match line with
  | String c r => if isBullet c then matchSpacesContent r else None
  | EmptyString => None
  end.

(** [options.fontSize * (2.5 - (level * 0.3))] *)
Definition headingFontSize (o : PDFMarkdownOptions) (level : nat) : Q :=
  fontSize o * ((25 # 10) - Num.ofNat level * (3 # 10)).

(** ** The layout engine, over an arbitrary glyph measurement *)

Section Layout.

(** [measure fontName fontStyle fontSize text] *)
Variable measure : string -> FontStyle -> Q -> string -> Q.

Definition getTextWidth (d : Doc) (t : string) : Q :=
  measure (docFont d) (docFontStyle d) (docFontSize d) t.

(** *** splitWordIfNeeded *)

Record SplitState := mkSplit {
  result : list TextSegment;
  currentPart : string
}.

(** One iteration of [for (let i = 0; i < word.length; i++)]. *)
Definition splitStep (d : Doc) (st : TextStyle) (maxW : Q)
    (acc : SplitState) (char : ascii) : SplitState :=
  let testPart := Str.snoc (currentPart acc) char in
  let testWidth := getTextWidth d testPart in
  if Num.gtb testWidth (maxW * (95 # 100)) then
    if (2 <=? String.length (currentPart acc))%nat then
      mkSplit (result acc ++ [mkSeg (currentPart acc ++ Str.hyphen)%string st])
              (String char EmptyString)
    else if (0 <? String.length (currentPart acc))%nat then
      mkSplit (result acc ++ [mkSeg (currentPart acc) st])
              (String char EmptyString)
    else
      mkSplit (result acc ++ [mkSeg (String char EmptyString) st])
              EmptyString
  else mkSplit (result acc) testPart.

Fixpoint splitLoop (d : Doc) (st : TextStyle) (maxW : Q)
    (chars : string) (acc : SplitState) : SplitState :=
  match chars with
  | EmptyString => acc
  | String c r => splitLoop d st maxW r (splitStep d st maxW acc c)
  end.

Definition splitWordIfNeeded (word : string) (st : TextStyle) (d : Doc)
    (maxW : Q) : list TextSegment * Doc :=
  let d1 := applyStyle d st (JsPDF.getFontSize d) (JsPDF.getFontName d) in
  if Num.leb (getTextWidth d1 word) maxW then ([mkSeg word st], d1)
  else
    let acc := splitLoop d1 st maxW word (mkSplit [] EmptyString) in
    if (0 <? String.length (currentPart acc))%nat
    then (result acc ++ [mkSeg (currentPart acc) st], d1)
    else (result acc, d1).

(** *** splitTextToLines *)

Record Breaker := mkBreaker {
  lines : list Line;
  currentLine : nat;
  currentLineWidth : Q;
  currentLineSegments : list TextSegment
}.

Definition nonEmptyLine (l : Line) : bool :=
  (0 <? List.length l)%nat.

Definition commitLine (b : Breaker) : Breaker :=
  if nonEmptyLine (currentLineSegments b) then
    let lines1 := jsSet [] (lines b) (currentLine b) (currentLineSegments b) in
    let currentLine1 := S (currentLine b) in
    mkBreaker (jsSet [] lines1 currentLine1 []) currentLine1 0 []
  else b.

(** [currentLineSegments.push(seg)] followed by an update of the width. *)
Definition pushSegment (seg : TextSegment) (w : Q) (b : Breaker) : Breaker :=
  mkBreaker (lines b) (currentLine b) w (currentLineSegments b ++ [seg]).

(** [parts.forEach((part, index) => ...)] of the forced-split branch. *)
Fixpoint placeParts (d : Doc) (parts : list TextSegment) (index : nat)
    (b : Breaker) : Breaker :=
  match parts with
  | [] => b
  | part :: r =>
      let b1 := if (0 <? index)%nat then commitLine b else b in
      placeParts d r (S index) (pushSegment part (getTextWidth d (text part)) b1)
  end.

(** The body of [words.forEach]. *)
Definition placeWord (f : string) (availableWidth spaceWidth : Q)
    (st : TextStyle) (acc : Breaker * Doc) (word : string) : Breaker * Doc :=
  let '(b, d) := acc in
  if negb (Str.nonEmpty word) then (b, d)
  else
    let d1 := applyStyle d st (JsPDF.getFontSize d) f in
    let wordWidth := getTextWidth d1 word in
    let totalWidth :=
      currentLineWidth b
      + (if nonEmptyLine (currentLineSegments b) then spaceWidth else 0)
      + wordWidth in
    if Num.leb totalWidth availableWidth then
      let b1 :=
        if nonEmptyLine (currentLineSegments b)
        then pushSegment (mkSeg Str.space st) (currentLineWidth b + spaceWidth) b
        else b in
      (pushSegment (mkSeg word st) (currentLineWidth b1 + wordWidth) b1, d1)
    else if Num.leb wordWidth availableWidth then
      (pushSegment (mkSeg word st) wordWidth (commitLine b), d1)
    else
      let b1 := if nonEmptyLine (currentLineSegments b) then commitLine b else b in
      let '(parts, d2) := splitWordIfNeeded word st d1 availableWidth in
      (placeParts d2 parts 0 b1, d2).

(** The body of [segments.forEach]. *)
Definition placeSegment (f : string) (availableWidth spaceWidth : Q)
    (acc : Breaker * Doc) (segment : TextSegment) : Breaker * Doc :=
  fold_left (placeWord f availableWidth spaceWidth (style segment))
            (splitWs (text segment)) acc.

(** The measuring [line.forEach] of the final pass. *)
Definition measureLine (f : string) (d : Doc) (line : Line) : Q * Doc :=
  fold_left
    (fun (acc : Q * Doc) (segment : TextSegment) =>
       let '(lineWidth, d0) := acc in
       let d1 := applyStyle d0 (style segment) (JsPDF.getFontSize d0) f in
       (lineWidth + getTextWidth d1 (text segment), d1))
    line (0, d).

Record Rebuild := mkRebuild {
  newLine : list TextSegment;
  currentWidth : Q
}.

(** [parts.forEach(part => ...)] of the rebuilding branch. *)
Definition readmitPart (d : Doc) (availableWidth : Q) (r : Rebuild)
    (part : TextSegment) : Rebuild :=
  if Num.leb (currentWidth r + getTextWidth d (text part)) availableWidth
  then mkRebuild (newLine r ++ [part]) (currentWidth r + getTextWidth d (text part))
  else r.

(** The rebuilding [line.forEach] of the final pass. *)
Definition rebuildStep (availableWidth spaceWidth : Q)
    (acc : Rebuild * Doc) (segment : TextSegment) : Rebuild * Doc :=
  let '(r, d) := acc in
  if String.eqb (text segment) Str.space then
    if Num.leb (currentWidth r + spaceWidth) availableWidth
    then (mkRebuild (newLine r ++ [segment]) (currentWidth r + spaceWidth), d)
    else (r, d)
  else
    let '(parts, d1) :=
      splitWordIfNeeded (text segment) (style segment) d
                        (availableWidth - currentWidth r) in
    (fold_left (readmitPart d1 availableWidth) parts r, d1).

(** The callback of [.map(line => ...)]. *)
Definition fitLine (f : string) (availableWidth spaceWidth : Q)
    (d : Doc) (line : Line) : Line * Doc :=
  let '(lineWidth, d1) := measureLine f d line in
  if Num.gtb lineWidth availableWidth then
    let '(r, d2) :=
      fold_left (rebuildStep availableWidth spaceWidth) line
                (mkRebuild [] 0, d1) in
    (newLine r, d2)
  else (line, d1).

Fixpoint fitLines (f : string) (availableWidth spaceWidth : Q)
    (d : Doc) (ls : list Line) : list Line * Doc :=
  match ls with
  | [] => ([], d)
  | line :: rest =>
      let '(line1, d1) := fitLine f availableWidth spaceWidth d line in
      let '(rest1, d2) := fitLines f availableWidth spaceWidth d1 rest in
      (line1 :: rest1, d2)
  end.

Definition splitTextToLines (d : Doc) (segments : list TextSegment)
    (maxW baseIndentation : Q) (f : string) : list Line * Doc :=
  let b0 := mkBreaker [[]] 0 0 [] in
  let indentationWidth := baseIndentation * JsPDF.getFontSize d in
  let availableWidth := maxW - indentationWidth in
  let spaceWidth := getTextWidth d Str.space in
  let '(b1, d1) :=
    fold_left (placeSegment f availableWidth spaceWidth) segments (b0, d) in
  let b2 := if nonEmptyLine (currentLineSegments b1) then commitLine b1 else b1 in
  fitLines f availableWidth spaceWidth d1 (filter nonEmptyLine (lines b2)).

(** *** renderJustifiedLine *)

Definition isGap (segment : TextSegment) : bool :=
  String.eqb (text segment) Str.space.

(** The branch [isLastLine || segments.length <= 1]. *)
Definition drawUnjustified (y : Q) (acc : Q * Doc) (segment : TextSegment)
    : Q * Doc :=
  let '(currentX, d) := acc in
  let d1 := applyStyle d (style segment) (JsPDF.getFontSize d) (JsPDF.getFontName d) in
  let d2 := JsPDF.drawText (text segment) currentX y d1 in
  (currentX
   + getTextWidth d2 (text segment ++ (if isGap segment then "" else " "))%string,
   d2).

(** The [forEach] that accumulates [totalTextWidth]. *)
Definition addTextWidth (acc : Q * Doc) (segment : TextSegment) : Q * Doc :=
  let '(totalTextWidth, d) := acc in
  let d1 := applyStyle d (style segment) (JsPDF.getFontSize d) (JsPDF.getFontName d) in
  (totalTextWidth + getTextWidth d1 (text segment), d1).

(** [segments.forEach((segment, index) => ...)] of the justified branch. *)
Fixpoint drawJustified (y extraSpacePerGap : Q) (len : nat)
    (segments : list TextSegment) (index : nat) (currentX : Q) (d : Doc)
    : Q * Doc :=
  match segments with
  | [] => (currentX, d)
  | segment :: rest =>
      let d1 := applyStyle d (style segment) (JsPDF.getFontSize d) (JsPDF.getFontName d) in
      let d2 := JsPDF.drawText (text segment) currentX y d1 in
      let segmentWidth := getTextWidth d2 (text segment) in
      let currentX1 := currentX + segmentWidth in
      let currentX2 :=
        if isGap segment && (Z.of_nat index <? Z.of_nat len - 1)%Z
        then currentX1 + extraSpacePerGap
        else currentX1 in
      drawJustified y extraSpacePerGap len rest (S index) currentX2 d2
  end.

Definition renderJustifiedLine (d : Doc) (segments : list TextSegment)
    (x y maxW : Q) (isLastLine : bool) : Doc :=
  if isLastLine || (List.length segments <=? 1)%nat then
    snd (fold_left (drawUnjustified y) segments (x, d))
  else
    let numberOfSpaces := List.length (filter isGap segments) in
    let '(totalTextWidth, d1) := fold_left addTextWidth segments (0, d) in
    let remainingSpace := Num.max 0 (maxW - totalTextWidth) in
    let extraSpacePerGap :=
      if (0 <? numberOfSpaces)%nat
      then remainingSpace / Num.ofNat numberOfSpaces
      else 0 in
    snd (drawJustified y extraSpacePerGap (List.length segments) segments 0 x d1).

(** *** parsePDFMarkdown *)

(** The four blocks of [parsePDFMarkdown] run the same [lines.forEach]
    callback and differ in four expressions: the left start of a line, the
    width handed to the justifier, and the starts of a centred and of a
    right-aligned line (functions of the measured [totalWidth]). *)
Record Placement := mkPlacement {
  startX : Q;
  justifyWidth : Q;
  centerX : Q -> Q;
  rightX : Q -> Q
}.

(** Heading and paragraph blocks. *)
Definition flowPlacement (o : PDFMarkdownOptions) (x baseIndentation : Q)
    : Placement :=
  mkPlacement
    (x + baseIndentation * fontSize o)
    (maxWidth o - baseIndentation * fontSize o)
    (fun totalWidth => x + (maxWidth o - totalWidth) / 2)
    (fun totalWidth => x + maxWidth o - totalWidth).

(** Ordered and unordered list items. *)
Definition listPlacement (o : PDFMarkdownOptions) (x listIndent : Q)
    : Placement :=
  mkPlacement
    (x + listIndent + 5)
    (maxWidth o - (listIndent + 5))
    (fun totalWidth =>
       x + listIndent + 5 + (maxWidth o - listIndent - 5 - totalWidth) / 2)
    (fun totalWidth => x + maxWidth o - totalWidth).

(** The measuring [lineSegments.forEach] of the non-justified branch. *)
Definition addStyledWidth (o : PDFMarkdownOptions) (acc : Q * Doc)
    (segment : TextSegment) : Q * Doc :=
  let '(totalWidth, d) := acc in
  let d1 := applyStyle d (style segment) (fontSize o) (font o) in
  (totalWidth + getTextWidth d1 (text segment), d1).

(** The drawing [lineSegments.forEach] of the non-justified branch. *)
Definition drawStyled (o : PDFMarkdownOptions) (currentY : Q) (acc : Q * Doc)
    (segment : TextSegment) : Q * Doc :=
  let '(xOffset, d) := acc in
  let d1 := applyStyle d (style segment) (fontSize o) (font o) in
  let d2 := JsPDF.drawText (text segment) xOffset currentY d1 in
  (xOffset + getTextWidth d2 (text segment), d2).

(** Everything the [lines.forEach] callback does to the document for one
    line that is not below the page bottom. *)
Definition placeLine (o : PDFMarkdownOptions) (p : Placement)
    (lineSegments : Line) (currentY : Q) (isLast : bool) (d : Doc) : Doc :=
  match align o with
  | Some Align.justify =>
      renderJustifiedLine d lineSegments (startX p) currentY (justifyWidth p) isLast
  | a =>
      let '(totalWidth, d1) := fold_left (addStyledWidth o) lineSegments (0, d) in
      let xOffset :=
        match a with
        | Some Align.center => centerX p totalWidth
        | Some Align.right => rightX p totalWidth
        | _ => startX p
        end in
      snd (fold_left (drawStyled o currentY) lineSegments (xOffset, d1))
  end.

(** [lines.forEach((lineSegments, lineIndex) => ...)] *)
Fixpoint renderLines (o : PDFMarkdownOptions) (p : Placement)
    (lineH maxY : Q) (len : nat) (ls : list Line) (lineIndex : nat)
    (currentY : Q) (d : Doc) : Q * Doc :=
  match ls with
  | [] => (currentY, d)
  | lineSegments :: rest =>
      if Num.gtb currentY maxY then
        renderLines o p lineH maxY len rest (S lineIndex) currentY d
      else
        let d1 :=
          placeLine o p lineSegments currentY
                    (Z.of_nat lineIndex =? Z.of_nat len - 1)%Z d in
        let currentY1 :=
          if (Z.of_nat lineIndex <? Z.of_nat len - 1)%Z
          then currentY + lineH else currentY in
        renderLines o p lineH maxY len rest (S lineIndex) currentY1 d1
  end.

(** Tokenize, break and render the content of one block. *)
Definition layoutBlock (o : PDFMarkdownOptions) (p : Placement)
    (lineH maxY : Q) (content : string) (breakWidth baseIndentation : Q)
    (currentY : Q) (d : Doc) : Q * Doc :=
  let segments := parseInlineMarkdown content in
  let '(ls, d1) := splitTextToLines d segments breakWidth baseIndentation (font o) in
  renderLines o p lineH maxY (List.length ls) ls 0 currentY d1.

Definition bullet : string :=
  String "226"%char (String "128"%char (String "162"%char EmptyString)).

(** The body of [for (let i = 0; i < textLines.length; i++)], from the
    line [textLines[i]] on; an early [return currentY] ends the recursion. *)
Fixpoint layoutLines (o : PDFMarkdownOptions) (x lineH maxY : Q)
    (textLines : list string) (currentY : Q) (d : Doc) : Q * Doc :=
  match textLines with
  | [] => (currentY, d)
  | raw :: rest =>
      let baseIndentation := calculateIndentation raw in
      let line := Str.trim raw in
      if negb (Str.nonEmpty line) then
        layoutLines o x lineH maxY rest (currentY + lineH) d
      else if Num.gtb (currentY + lineH) maxY then (currentY, d)
      else
        match headerMatch line with
        | Some (level, content) =>
            let currentY1 := currentY + lineH in
            if Num.gtb currentY1 maxY then (currentY1, d)
            else
              let d1 := JsPDF.setFontSize (headingFontSize o level) d in
              let d2 := JsPDF.setFont (font o) fs_bold d1 in
              let '(currentY2, d3) :=
                layoutBlock o (flowPlacement o x baseIndentation) lineH maxY
                            content (maxWidth o) baseIndentation currentY1 d2 in
              let d4 := JsPDF.setFontSize (fontSize o) d3 in
              let d5 := JsPDF.setFont (font o) normal d4 in
              layoutLines o x lineH maxY rest currentY2 d5
        | None =>
        match orderedListMatch line with
        | Some (listNumber, content) =>
            let listIndent := baseIndentation * fontSize o in
            let currentY1 := currentY + lineH in
            if Num.gtb currentY1 maxY then (currentY1, d)
            else
              let d1 :=
                JsPDF.drawText (listNumber ++ ".")%string (x + listIndent) currentY1 d in
              let '(currentY2, d2) :=
                layoutBlock o (listPlacement o x listIndent) lineH maxY
                            content (maxWidth o - (listIndent + 5))
                            baseIndentation currentY1 d1 in
              layoutLines o x lineH maxY rest currentY2 d2
        | None =>
        match unorderedListMatch line with
        | Some content =>
            let listIndent := baseIndentation * fontSize o in
            let currentY1 := currentY + lineH in
            if Num.gtb currentY1 maxY then (currentY1, d)
            else
              let d1 := JsPDF.drawText bullet (x + listIndent) currentY1 d in
              let '(currentY2, d2) :=
                layoutBlock o (listPlacement o x listIndent) lineH maxY
                            content (maxWidth o - (listIndent + 5))
                            baseIndentation currentY1 d1 in
              layoutLines o x lineH maxY rest currentY2 d2
        | None =>
            let currentY1 := currentY + lineH in
            if Num.gtb currentY1 maxY then (currentY1, d)
            else
              let '(currentY2, d1) :=
                layoutBlock o (flowPlacement o x baseIndentation) lineH maxY
                            line (maxWidth o) baseIndentation currentY1 d in
              layoutLines o x lineH maxY rest currentY2 d1
        end end end
  end.

Definition parsePDFMarkdown (d : Doc) (t : string) (x y : Q)
    (o : PDFMarkdownOptions) : Q * Doc :=
  if negb (Str.nonEmpty t) then (y, d)
  else
    let t1 := replaceDashes t in
    let t2 := collapseNewlines t1 in
    let d1 := JsPDF.setFont (font o) normal d in
    let d2 := JsPDF.setFontSize (fontSize o) d1 in
    let lineH := fontSize o * (352778 # 1000000) * lineHeight o in
    let textLines := splitLines t2 in
    let marginBottom := 20 in
    let maxY := pageHeight d2 - marginBottom in
    layoutLines o x lineH maxY textLines y d2.

End Layout.

(** ** wrapText, of the markup variant of the parser *)

(** [s.split(c)] for a single code unit [c], scanning [s] with the pending
    piece [cur]. *)
Fixpoint splitOnFrom (sepc : ascii) (s cur : string) : list string :=
  match s with
  | EmptyString => [cur]
  | String c r =>
      if Ascii.eqb c sepc then cur :: splitOnFrom sepc r EmptyString
      else splitOnFrom sepc r (Str.snoc cur c)
  end.

Definition splitOn (sepc : ascii) (s : string) : list string :=
  splitOnFrom sepc s EmptyString.

Record Wrap := mkWrap {
  wrapLines : list string;
  wrapCurrentLine : string
}.

(** The body of [words.forEach] in [wrapText]. *)
Definition wrapStep (maxW : Q) (st : Wrap) (word : string) : Wrap :=
  if Num.leb (Num.ofNat (String.length (wrapCurrentLine st)
                         + String.length word + 1)) maxW
  then mkWrap (wrapLines st)
              (wrapCurrentLine st
               ++ (if Str.nonEmpty (wrapCurrentLine st) then " " else "")
               ++ word)%string
  else mkWrap (wrapLines st ++ [wrapCurrentLine st]) word.

(** The array [lines] of [wrapText] before it is joined. *)
Definition wrapTextLines (t : string) (maxW : Q) : list string :=
  let st := fold_left (wrapStep maxW) (splitOn " "%char t) (mkWrap [] EmptyString) in
  if Str.nonEmpty (wrapCurrentLine st)
  then wrapLines st ++ [wrapCurrentLine st]
  else wrapLines st.

(** [wrapText(text, maxWidth = 80)]; [None] is the omitted argument. *)
Definition wrapText (t : string) (maxW : option Q) : string :=
  String.concat Str.newline
    (wrapTextLines t (match maxW with Some w => w | None => 80 end)).

(** A text without the space character. *)
Definition noBlank (t : string) : bool :=
  Str.forallb (fun c => negb (Ascii.eqb c " "%char)) t.

(** The words of a list of lines, empty words left out. *)
Definition wordsOf (ls : list string) : list string :=
  filter Str.nonEmpty (flat_map (splitOn " "%char) ls).

(** Invariants of the loop of [wrapText]. *)
Definition wrapBounded (maxW : Q) (l : string) : Prop :=
  Num.ofNat (String.length l) <= maxW \/ noBlank l = true.

(** ** Vocabulary of the statements *)

(** Text without emphasis markers. *)
Definition plainText (t : string) : bool :=
  Str.forallb (fun c => negb (isMarker c)) t.


Definition boldStyle : TextStyle := toggleBold initialStyle.
Definition italicStyle : TextStyle := toggleItalic initialStyle.

(** A block of a split word: its characters, and whether the splitter
    appended a hyphen to it. *)
Definition Block := (string * bool)%type.

Definition blockText (b : Block) : string :=
  if snd b then (fst b ++ Str.hyphen)%string else fst b.

Definition joinBlocks (bs : list Block) : string :=
  String.concat EmptyString (map fst bs).

(** A hyphen is appended only to a block of two or more characters that is
    not the last block. *)
Definition hyphenOnlyInside (bs : list Block) : Prop :=
  forall pre b post,
    bs = pre ++ b :: post -> snd b = true ->
    (2 <= String.length (fst b))%nat /\ post <> [].

(** Segments that carry no heading level, as all segments made by
    [parseInlineMarkdown] do. *)
Definition noHeading (segs : list TextSegment) : bool :=
  forallb (fun s => match heading (style s) with None => true | Some _ => false end)
          segs.



Section Vocabulary.

Variable measure : string -> FontStyle -> Q -> string -> Q.

(** The width of a segment set in its own style, in font [f] at size [sz]. *)
Definition naturalWidth (f : string) (sz : Q) (s : TextSegment) : Q :=
  measure f (fontStyleOf (style s)) sz (text s).

(** [totalTextWidth] over a list of segments. *)
Definition sumWidths (f : string) (sz : Q) (segs : list TextSegment) : Q :=
  fold_left (fun acc s => acc + naturalWidth f sz s) segs 0.

Definition extraPerGap (total availableWidth : Q) (gaps : nat) : Q :=
  if (0 <? gaps)%nat
  then Num.max 0 (availableWidth - total) / Num.ofNat gaps
  else 0.

(** The drawing calls of a justified line: each segment at the cursor, the
    cursor advanced by the natural width and, after a gap marker that is
    not the last segment, by [extra] more. *)
Fixpoint justifiedCalls (f : string) (sz y extra : Q) (len : nat)
    (segs : list TextSegment) (index : nat) (x : Q) : list DrawCall :=
  match segs with
  | [] => []
  | s :: rest =>
      mkDraw (text s) x y f (fontStyleOf (style s)) sz
      :: justifiedCalls f sz y extra len rest (S index)
           (if isGap s && (Z.of_nat index <? Z.of_nat len - 1)%Z
            then x + naturalWidth f sz s + extra
            else x + naturalWidth f sz s)
  end.

(** Gap distribution in the words of the specification: the total is taken
    over the non-gap segments only. *)
Definition justifyAsSpecified (f : string) (sz : Q)
    (segs : list TextSegment) (x y availableWidth : Q) : list DrawCall :=
  let totalTextWidth :=
    sumWidths f sz (filter (fun s => negb (isGap s)) segs) in
  let numberOfGaps := List.length (filter isGap segs) in
  justifiedCalls f sz y (extraPerGap totalTextWidth availableWidth numberOfGaps)
                 (List.length segs) segs 0 x.

(** Gap distribution with the total taken over all segments of the line,
    gap markers included. *)
Definition justifyAllSegments (f : string) (sz : Q)
    (segs : list TextSegment) (x y availableWidth : Q) : list DrawCall :=
  let totalTextWidth := sumWidths f sz segs in
  let numberOfGaps := List.length (filter isGap segs) in
  justifiedCalls f sz y (extraPerGap totalTextWidth availableWidth numberOfGaps)
                 (List.length segs) segs 0 x.

(** The measured width of a segment of a line: a gap marker counts for the
    space width, any other segment for its natural width. *)
Definition segmentWidth (f : string) (sz spaceWidth : Q) (s : TextSegment) : Q :=
  if isGap s then spaceWidth else naturalWidth f sz s.

Fixpoint lineWidthOf (f : string) (sz spaceWidth : Q) (l : Line) : Q :=
  match l with
  | [] => 0
  | s :: rest => segmentWidth f sz spaceWidth s + lineWidthOf f sz spaceWidth rest
  end.

(** A line made of one forcibly split single character wider than the
    available width. *)
Definition unavoidableOverflow (f : string) (sz availableWidth : Q)
    (l : Line) : Prop :=
  exists s, l = [s] /\ String.length (text s) = 1%nat
            /\ availableWidth < naturalWidth f sz s.

(** The width bound, with its exception, over the lines of one call. *)
Definition widthBoundWithException (d : Doc) (segs : list TextSegment)
    (maxW baseIndentation : Q) (f : string) : Prop :=
  let availableWidth := maxW - baseIndentation * docFontSize d in
  forall l,
    In l (fst (splitTextToLines measure d segs maxW baseIndentation f)) ->
    lineWidthOf f (docFontSize d) (getTextWidth measure d Str.space) l
      <= availableWidth
    \/ unavoidableOverflow f (docFontSize d) availableWidth l.

End Vocabulary.

(** Example data. *)
Definition plain (t : string) : TextSegment := mkSeg t initialStyle.

Definition threeSegments : Line := [plain "a"; plain " "; plain "b"].

Definition exampleOptions (a : option Align.t) (w : Q) : PDFMarkdownOptions :=
  mkOptions w a 12 1 "Helvetica".

(** Two drawing calls that show the same thing at the same place (numbers
    compared as rationals). *)
Definition fontStyleEqb (a b : FontStyle) : bool :=
  match a, b with
  | normal, normal | fs_bold, fs_bold | fs_italic, fs_italic
  | bolditalic, bolditalic => true
  | _, _ => false
  end.

Definition sameCall (c1 c2 : DrawCall) : bool :=
  String.eqb (dc_text c1) (dc_text c2)
  && Qeq_bool (dc_x c1) (dc_x c2)
  && Qeq_bool (dc_y c1) (dc_y c2)
  && String.eqb (dc_font c1) (dc_font c2)
  && fontStyleEqb (dc_style c1) (dc_style c2)
  && Qeq_bool (dc_size c1) (dc_size c2).

Fixpoint sameDrawing (l1 l2 : list DrawCall) : bool :=
  match l1, l2 with
  | [], [] => true
  | c1 :: r1, c2 :: r2 => sameCall c1 c2 && sameDrawing r1 r2
  | _, _ => false
  end.

(** The two-block input ["# Title\nSecond paragraph"]. *)
Definition titleInput : string :=
  ("# Title" ++ Str.newline ++ "Second paragraph")%string.

(** Options whose effective line height,
    [fontSize * 0.352778 * lineHeight], is 10. *)
Definition tenPointOptions (a : option Align.t) (w : Q) : PDFMarkdownOptions :=
  mkOptions w a (10000000 # 352778) 1 "Helvetica".

(** A document whose page bottom, [pageHeight - 20], is 12. *)
Definition shortPage : Doc := mkDoc "Helvetica" normal 12 32 [].

(** Invariants of the line breaker, for a font [f], a font size [sz], a
    space width [sp] and an available width [W]. *)
Definition noSpace (t : string) : bool :=
  Str.forallb (fun c => negb (Str.isSpace c)) t.

(** A segment of a line: no heading level, and either a gap marker or a word
    without whitespace. *)
Definition okSegment (s : TextSegment) : Prop :=
  heading (style s) = None /\ (isGap s = true \/ noSpace (text s) = true).

Section Invariants.

Variable measure : string -> FontStyle -> Q -> string -> Q.
Variables (f : string) (sz sp W : Q).

(** A line within the width, or a lone word still to be checked. *)
Definition fitsWidth (l : Line) : Prop :=
  lineWidthOf measure f sz sp l <= W \/ exists s, l = [s] /\ isGap s = false.

Definition goodLine (l : Line) : Prop :=
  l <> [] /\ Forall okSegment l /\ fitsWidth l.

Record BreakerInv (b : Breaker) : Prop := mkBreakerInv {
  bi_lines :
    exists committed,
      lines b = committed ++ [[]]
      /\ currentLine b = List.length committed
      /\ Forall goodLine committed;
  bi_segments : Forall okSegment (currentLineSegments b);
  bi_width :
    currentLineWidth b == lineWidthOf measure f sz sp (currentLineSegments b);
  bi_fits :
    currentLineSegments b = [] \/ fitsWidth (currentLineSegments b)
}.

Record RebuildInv (r : Rebuild) : Prop := mkRebuildInv {
  ri_segments : Forall okSegment (newLine r);
  ri_width : currentWidth r == lineWidthOf measure f sz sp (newLine r);
  ri_fits : newLine r = [] \/ currentWidth r <= W
}.

(** The document is set in font [f] at size [sz]. *)
Definition faceOf (d : Doc) : Prop := docFont d = f /\ docFontSize d = sz.

(** A word segment whose width in the current face of the document is its
    natural width. *)
Definition setIn (d : Doc) (p : TextSegment) : Prop :=
  heading (style p) = None
  /\ noSpace (text p) = true
  /\ getTextWidth measure d (text p) = naturalWidth measure f sz p.

(** What the final pass guarantees for one line. *)
Definition bounded (l : Line) : Prop :=
  l = [] \/ lineWidthOf measure f sz sp l <= W.

End Invariants.

(** The loop invariant of the forced splitter: the fragments emitted so far
    are the rendering of blocks which, followed by the pending part and the
    unread characters, spell the word. *)
Record SplitInv (st : TextStyle) (word rest : string) (acc : SplitState)
    (bs : list Block) : Prop := mkSplitInv {
  inv_texts : map text (result acc) = map blockText bs;
  inv_styles : Forall (fun s => style s = st) (result acc);
  inv_word : (joinBlocks bs ++ currentPart acc ++ rest)%string = word;
  inv_blocks :
    Forall (fun b => fst b <> EmptyString
                     /\ (snd b = true -> (2 <= String.length (fst b))%nat)) bs;
  inv_pending :
    Exists (fun b => snd b = true) bs -> currentPart acc <> EmptyString
}.

(** ** Vocabulary of the further properties *)

(** The text with every emphasis marker removed. *)
Fixpoint stripMarkers (t : string) : string :=
  match t with
  | EmptyString => EmptyString
  | String c r => if isMarker c then stripMarkers r else String c (stripMarkers r)
  end.

(** The texts of a list of segments, one after the other. *)
Definition concatTexts (segs : list TextSegment) : string :=
  String.concat EmptyString (map text segs).

(** A style that differs from the initial style in [bold] and [italic] only. *)
Definition inlineOnly (s : TextStyle) : Prop :=
  s = mkTextStyle (bold s) (italic s) None false None 0%Z 0.

(** A segment as the tokenizer emits it. *)
Definition tokenized (s : TextSegment) : Prop :=
  text s <> EmptyString /\ plainText (text s) = true /\ inlineOnly (style s).

(** [n] copies of the code unit [c]. *)
Fixpoint repeatChar (c : ascii) (n : nat) : string :=
  match n with
  | O => EmptyString
  | S k => String c (repeatChar c k)
  end.

(** A non-empty run of whitespace. *)
Definition isSeparator (sep : string) : Prop :=
  sep <> EmptyString /\ Str.forallb Str.isSpace sep = true.

(** The shape [^(#{1,6})\s+(.+)$] with [level] hashes. *)
Definition headingShape (line : string) (level : nat) : Prop :=
  (1 <= level <= 6)%nat
  /\ exists sep content,
       line = (repeatChar "#"%char level ++ sep ++ content)%string
       /\ isSeparator sep /\ dotPlus content = true.

(** How many of the three block patterns match a line. *)
Definition matched {A : Type} (m : option A) : nat :=
  match m with
  | Some _ => 1
  | None => 0
  end.

Definition matchCount (line : string) : nat :=
  matched (headerMatch line) + matched (orderedListMatch line)
  + matched (unorderedListMatch line).

(** Does the string start with a code unit satisfying [p]? *)
Definition startsWithP (p : ascii -> bool) (s : string) : bool :=
  match s with
  | EmptyString => false
  | String c _ => p c
  end.

Section SplitterVocabulary.

Variable measure : string -> FontStyle -> Q -> string -> Q.

(** A block of two or more characters stays within 95% of the width. *)
Definition longBlockFits (d : Doc) (maxW : Q) (b : string) : Prop :=
  (2 <= String.length b)%nat -> getTextWidth measure d b <= maxW * (95 # 100).

(** Loop invariant of the forced splitter for the widths of the blocks. *)
Record SplitWidthInv (d : Doc) (maxW : Q) (word rest : string)
    (acc : SplitState) (bs : list Block) : Prop := mkSplitWidthInv {
  wi_texts : map text (result acc) = map blockText bs;
  wi_word : (joinBlocks bs ++ currentPart acc ++ rest)%string = word;
  wi_blocks : Forall (fun b => longBlockFits d maxW (fst b)) bs;
  wi_pending : longBlockFits d maxW (currentPart acc)
}.

End SplitterVocabulary.

(** The second document has the page and the drawing log of the first. *)
Definition sameCanvas (d d1 : Doc) : Prop :=
  calls d1 = calls d /\ pageHeight d1 = pageHeight d.

(** The second document is the first after drawing the texts of [segs], in
    order, all at ordinate [y]. *)
Definition drawsAt (y : Q) (segs : list TextSegment) (d d1 : Doc) : Prop :=
  pageHeight d1 = pageHeight d
  /\ exists new,
       calls d1 = calls d ++ new
       /\ map (fun c => (dc_text c, dc_y c)) new = map (fun s => (text s, y)) segs.

Section RendererVocabulary.

Variable measure : string -> FontStyle -> Q -> string -> Q.

(** The drawing calls of a line set from the abscissa [x] on, each segment
    in its own style where the previous one ends. *)
Fixpoint alignedCalls (f : string) (sz y : Q) (segs : list TextSegment) (x : Q)
    : list DrawCall :=
  match segs with
  | [] => []
  | s :: rest =>
      mkDraw (text s) x y f (fontStyleOf (style s)) sz
      :: alignedCalls f sz y rest (x + naturalWidth measure f sz s)
  end.

(** Where a line of total width [total] starts under the alignment of [o]
    (any alignment but 'justify'). *)
Definition lineStart (o : PDFMarkdownOptions) (p : Placement) (total : Q) : Q :=
  match align o with
  | Some Align.center => centerX p total
  | Some Align.right => rightX p total
  | _ => startX p
  end.

(** The cursor of the justifier after the segments [segs], the first of
    which has index [index] in a line of [len] segments. *)
Fixpoint justifiedCursor (f : string) (sz extra : Q) (len : nat)
    (segs : list TextSegment) (index : nat) (x : Q) : Q :=
  match segs with
  | [] => x
  | s :: rest =>
      justifiedCursor f sz extra len rest (S index)
        (if isGap s && (Z.of_nat index <? Z.of_nat len - 1)%Z
         then x + naturalWidth measure f sz s + extra
         else x + naturalWidth measure f sz s)
  end.

End RendererVocabulary.

Definition isJustify (a : option Align.t) : bool :=
  match a with
  | Some Align.justify => true
  | _ => false
  end.



(** Segments whose text is whitespace only (or empty). *)
Definition blankSegments (segs : list TextSegment) : bool :=
  forallb (fun s => Str.forallb Str.isSpace (text s)) segs.

(** The second document is the first with more drawing calls, all of which
    satisfy [P]; the page is the same. *)
Definition extendsWith (P : DrawCall -> Prop) (d d1 : Doc) : Prop :=
  pageHeight d1 = pageHeight d
  /\ exists new, calls d1 = calls d ++ new /\ Forall P new.

(** A call at or above the page bottom [maxY]. *)
Definition onPage (maxY : Q) (c : DrawCall) : Prop := dc_y c <= maxY.

(** [fontSize * 0.352778 * lineHeight] *)
Definition effectiveLineHeight (o : PDFMarkdownOptions) : Q :=
  fontSize o * (352778 # 1000000) * lineHeight o.

(** The lines the driver works on. *)
Definition textLinesOf (t : string) : list string :=
  splitLines (collapseNewlines (replaceDashes t)).

(** Lines that are empty once trimmed. *)
Definition blankLines (ls : list string) : bool :=
  forallb (fun l => negb (Str.nonEmpty (Str.trim l))) ls.

Definition isLF (c : ascii) : bool := Ascii.eqb c "010"%char.

Definition isDash (c : ascii) : bool := Ascii.eqb c "-"%char.

(** Does the text contain two consecutive line feeds? *)
Fixpoint hasDoubleNewline (s : string) : bool :=
  match s with
  | EmptyString => false
  | String c r => (isLF c && startsWithP isLF r) || hasDoubleNewline r
  end.

(** Does the text start with three dashes? *)
Definition startsWithTripleDash (s : string) : bool :=
  match s with
  | String c1 (String c2 (String c3 _)) => isDash c1 && isDash c2 && isDash c3
  | _ => false
  end.

(** Does the text contain three consecutive dashes? *)
Fixpoint hasTripleDash (s : string) : bool :=
  match s with
  | EmptyString => false
  | String c r => startsWithTripleDash s || hasTripleDash r
  end.

Section FallbackVocabulary.

Variable measure : string -> FontStyle -> Q -> string -> Q.

(** The drawing calls of the fallback of the justifier: after a word the
    cursor advances by the width of the word followed by a space, after a gap
    marker by the width of the gap. *)
Fixpoint fallbackCalls (f : string) (sz y : Q) (segs : list TextSegment) (x : Q)
    : list DrawCall :=
  match segs with
  | [] => []
  | s :: rest =>
      mkDraw (text s) x y f (fontStyleOf (style s)) sz
      :: fallbackCalls f sz y rest
           (x + measure f (fontStyleOf (style s)) sz
                        (text s ++ (if isGap s then "" else " "))%string)
  end.

End FallbackVocabulary.

(** The shape of the array [lines] of the line breaker: committed lines,
    none of them empty, followed by the empty line under construction. *)
Definition breakerShape (b : Breaker) : Prop :=
  exists committed,
    lines b = committed ++ [[]]
    /\ currentLine b = List.length committed
    /\ Forall (fun l => nonEmptyLine l = true) committed.

(** The line breaker holds a segment. *)
Definition hasContent (b : Breaker) : Prop :=
  (1 < List.length (lines b))%nat \/ currentLineSegments b <> [].

(** * Properties *)

(** ** Strings *)

Lemma append_empty_r (s : string) : (s ++ "")%string = s.
Proof. induction s as [|c s IH]; simpl; [reflexivity | now rewrite IH]. Qed.

Lemma append_assoc (a b c : string) :
  ((a ++ b) ++ c)%string = (a ++ (b ++ c))%string.
Proof. induction a as [|x a IH]; simpl; [reflexivity | now rewrite IH]. Qed.

Lemma snoc_append (s : string) (c : ascii) (r : string) :
  (Str.snoc s c ++ r)%string = (s ++ String c r)%string.
Proof. unfold Str.snoc. now rewrite append_assoc. Qed.

Lemma snoc_not_empty (s : string) (c : ascii) : Str.snoc s c <> EmptyString.
Proof. destruct s; discriminate. Qed.

Lemma append_hyphen_not_empty (s : string) : (s ++ Str.hyphen)%string <> EmptyString.
Proof. destruct s; discriminate. Qed.

Lemma length_pos_not_empty (s : string) :
  (0 <? String.length s)%nat = true -> s <> EmptyString.
Proof. destruct s; [discriminate | intros _; discriminate]. Qed.

Lemma length_zero_empty (s : string) :
  (0 <? String.length s)%nat = false -> s = EmptyString.
Proof. destruct s; [reflexivity | discriminate]. Qed.

Lemma nonEmpty_true (s : string) : s <> EmptyString -> Str.nonEmpty s = true.
Proof. destruct s; [congruence | reflexivity]. Qed.

Lemma concat_app (l1 l2 : list string) :
  String.concat "" (l1 ++ l2) = (String.concat "" l1 ++ String.concat "" l2)%string.
Proof.
  induction l1 as [|a l1 IH]; simpl; [reflexivity|].
  destruct l1 as [|b l1]; simpl in *.
  - destruct l2; simpl; [now rewrite append_empty_r | reflexivity].
  - rewrite IH. now rewrite append_assoc.
Qed.

(** ** The inline style tokenizer *)

Lemma scanInline_plain (t rest cur : string) (st : TextStyle)
    (segs : list TextSegment) :
  plainText t = true ->
  scanInline (t ++ rest) cur st segs = scanInline rest (cur ++ t) st segs.
Proof.
  revert cur. induction t as [|c t IH]; intros cur Hp; simpl in *.
  - now rewrite append_empty_r.
  - apply andb_prop in Hp. destruct Hp as [Hc Ht].
    apply negb_true_iff in Hc. rewrite Hc.
    rewrite (IH _ Ht). unfold Str.snoc. now rewrite append_assoc.
Qed.


Lemma noHeading_snoc (segs : list TextSegment) (s : TextSegment) :
  noHeading segs = true -> heading (style s) = None ->
  noHeading (segs ++ [s]) = true.
Proof.
  intros Hsegs Hs. unfold noHeading in *. rewrite forallb_app, Hsegs. simpl.
  now rewrite Hs.
Qed.

Lemma scanInline_noHeading (rest : string) :
  forall (cur : string) (st : TextStyle) (segs : list TextSegment),
    heading st = None -> noHeading segs = true ->
    noHeading (scanInline rest cur st segs) = true.
Proof.
  assert (Hflush : forall cur st segs,
             heading st = None -> noHeading segs = true ->
             noHeading (flushText cur st segs) = true).
  { intros cur st segs Hst Hsegs. unfold flushText.
    destruct (Str.nonEmpty cur); [now apply noHeading_snoc | exact Hsegs]. }
  induction rest as [rest IH] using (well_founded_induction
                                       (Wf_nat.well_founded_ltof _ String.length)).
  intros cur st segs Hst Hsegs.
  destruct rest as [|c rest1]; simpl; [now apply Hflush|].
  destruct (isMarker c).
  - destruct rest1 as [|c1 rest2].
    + simpl. apply Hflush; [exact Hst | now apply Hflush].
    + destruct (Ascii.eqb c1 c);
        (apply IH; [unfold Wf_nat.ltof; simpl; lia | exact Hst | now apply Hflush]).
  - apply IH; [unfold Wf_nat.ltof; simpl; lia | exact Hst | exact Hsegs].
Qed.

(** Every segment made by the tokenizer is without heading level. *)
Lemma parseInlineMarkdown_noHeading (t : string) :
  noHeading (parseInlineMarkdown t) = true.
Proof. now apply scanInline_noHeading. Qed.

(** ** Indentation *)

(** C7, as amended. The line "- item" and the paragraph line "item", both
    without leading whitespace, get the same base indentation, 0.25: the
    list marker adds what flat text adds. *)
Theorem calculateIndentation_list_equals_paragraph :
  calculateIndentation "- item" == 1 # 4
  /\ calculateIndentation "item" == 1 # 4
  /\ calculateIndentation "- item" == calculateIndentation "item".
Proof. repeat split. Qed.

(** C7, as stated, fails: the indentation of "- item" is not strictly
    greater than the indentation of "item". *)
Lemma calculateIndentation_list_not_greater :
  ~ (calculateIndentation "item" < calculateIndentation "- item").
Proof. vm_compute. intros H. discriminate H. Qed.

(** ** The page driver on empty input *)

(** C9. Empty input is the identity: the starting [y] comes back and the
    document, hence its log of drawing calls, is untouched. *)
Theorem parsePDFMarkdown_empty
    (measure : string -> FontStyle -> Q -> string -> Q)
    (d : Doc) (x y : Q) (o : PDFMarkdownOptions) :
  parsePDFMarkdown measure d "" x y o = (y, d)
  /\ calls (snd (parsePDFMarkdown measure d "" x y o)) = calls d.
Proof. split; reflexivity. Qed.

(** ** The forced word splitter *)

Section Splitter.

Variable measure : string -> FontStyle -> Q -> string -> Q.
Variables (d : Doc) (st : TextStyle) (maxW : Q).

Lemma joinBlocks_snoc (bs : list Block) (b : Block) :
  joinBlocks (bs ++ [b]) = (joinBlocks bs ++ fst b)%string.
Proof.
  unfold joinBlocks. rewrite map_app, concat_app. simpl. reflexivity.
Qed.

Lemma splitStep_inv (d1 : Doc) (word rest : string) (c : ascii)
    (acc : SplitState) (bs : list Block) :
  SplitInv st word (String c rest) acc bs ->
  exists bs1, SplitInv st word rest (splitStep measure d1 st maxW acc c) bs1.
Proof.
  intros [Ht Hs Hw Hb Hp]. unfold splitStep.
  destruct (Num.gtb _ _).
  - destruct (2 <=? String.length (currentPart acc))%nat eqn:H2.
    + exists (bs ++ [(currentPart acc, true)]). constructor; simpl.
      * rewrite !map_app, Ht. reflexivity.
      * apply Forall_app. split; [assumption | repeat constructor].
      * rewrite joinBlocks_snoc, append_assoc. exact Hw.
      * apply Forall_app. split; [assumption|]. repeat constructor; simpl.
        -- apply Nat.leb_le in H2. destruct (currentPart acc); simpl in *; [lia | discriminate].
        -- intros _. now apply Nat.leb_le.
      * intros _. discriminate.
    + destruct (0 <? String.length (currentPart acc))%nat eqn:H0.
      * exists (bs ++ [(currentPart acc, false)]). constructor; simpl.
        -- rewrite !map_app, Ht. reflexivity.
        -- apply Forall_app. split; [assumption | repeat constructor].
        -- rewrite joinBlocks_snoc, append_assoc. exact Hw.
        -- apply Forall_app. split; [assumption|]. repeat constructor; simpl.
           ++ now apply length_pos_not_empty.
           ++ discriminate.
        -- intros _. discriminate.
      * exists (bs ++ [(String c EmptyString, false)]).
        apply length_zero_empty in H0.
        constructor; simpl.
        -- rewrite !map_app, Ht. reflexivity.
        -- apply Forall_app. split; [assumption | repeat constructor].
        -- rewrite joinBlocks_snoc, append_assoc. rewrite H0 in Hw. exact Hw.
        -- apply Forall_app. split; [assumption|]. repeat constructor; simpl; discriminate.
        -- intros He. apply Exists_app in He. destruct He as [He | He].
           ++ exfalso. now apply (Hp He).
           ++ inversion He as [? ? Hx | ? ? Hx]; [discriminate Hx | inversion Hx].
  - exists bs. constructor; simpl; try assumption.
    + rewrite snoc_append. exact Hw.
    + intros _. apply snoc_not_empty.
Qed.

Lemma splitLoop_inv (d1 : Doc) (word rest : string) :
  forall (acc : SplitState) (bs : list Block),
    SplitInv st word rest acc bs ->
    exists bs1, SplitInv st word EmptyString (splitLoop measure d1 st maxW rest acc) bs1.
Proof.
  induction rest as [|c rest IH]; intros acc bs Hinv; simpl.
  - now exists bs.
  - destruct (splitStep_inv d1 _ _ _ _ _ Hinv) as [bs1 H1]. exact (IH _ _ H1).
Qed.

Lemma hyphenOnlyInside_closed (bs : list Block) (p : string) :
  Forall (fun b => fst b <> EmptyString
                   /\ (snd b = true -> (2 <= String.length (fst b))%nat)) bs ->
  hyphenOnlyInside (bs ++ [(p, false)]).
Proof.
  intros Hb pre b post Heq Hh. split.
  - assert (Hin : In b (bs ++ [(p, false)])) by (rewrite Heq; apply in_elt).
    apply in_app_or in Hin. destruct Hin as [Hin | [Hin | []]].
    + rewrite Forall_forall in Hb. now apply (Hb _ Hin).
    + subst b. discriminate Hh.
  - intros ->. apply app_inj_tail in Heq. destruct Heq as [_ Heq].
    subst b. discriminate Hh.
Qed.

Lemma hyphenOnlyInside_none (bs : list Block) :
  ~ Exists (fun b => snd b = true) bs -> hyphenOnlyInside bs.
Proof.
  intros Hn pre b post Heq Hh. exfalso. apply Hn. rewrite Heq.
  apply Exists_app. right. now constructor.
Qed.

(** What the splitter returns, for any word: the rendering of a partition
    of the word into blocks. *)
Lemma splitWordIfNeeded_blocks (word : string) :
  exists bs : list Block,
    joinBlocks bs = word
    /\ map text (fst (splitWordIfNeeded measure word st d maxW)) = map blockText bs
    /\ hyphenOnlyInside bs
    /\ Forall (fun s => style s = st) (fst (splitWordIfNeeded measure word st d maxW))
    /\ (word <> EmptyString ->
        bs <> [] /\ Forall (fun b => fst b <> EmptyString) bs).
Proof.
  unfold splitWordIfNeeded.
  destruct (Num.leb _ _).
  - exists [(word, false)]. simpl.
    split; [reflexivity|]. split; [reflexivity|].
    split; [apply (hyphenOnlyInside_closed []); constructor|].
    split; [repeat constructor|].
    intros Hne. split; [discriminate | repeat constructor; assumption].
  - set (d1 := applyStyle d st (JsPDF.getFontSize d) (JsPDF.getFontName d)).
    assert (H0 : SplitInv st word word (mkSplit [] EmptyString) []).
    { constructor; simpl; try constructor; try reflexivity.
      intros He. inversion He. }
    destruct (splitLoop_inv d1 word word _ _ H0) as [bs [Ht Hs Hw Hb Hp]].
    set (acc := splitLoop measure d1 st maxW word (mkSplit [] EmptyString)) in *.
    rewrite append_empty_r in Hw.
    destruct (0 <? String.length (currentPart acc))%nat eqn:Hc; simpl.
    + exists (bs ++ [(currentPart acc, false)]).
      split; [now rewrite joinBlocks_snoc|].
      split; [rewrite !map_app, Ht; reflexivity|].
      split; [now apply hyphenOnlyInside_closed|].
      split; [apply Forall_app; split; [assumption | repeat constructor]|].
      intros _. split; [now destruct bs|].
      apply Forall_app. split.
      * eapply Forall_impl; [|exact Hb]. now intros b [Hb1 _].
      * repeat constructor. simpl. now apply length_pos_not_empty.
    + apply length_zero_empty in Hc. rewrite Hc, append_empty_r in Hw.
      exists bs.
      split; [assumption|]. split; [assumption|].
      split; [apply hyphenOnlyInside_none; intros He; now apply (Hp He)|].
      split; [assumption|].
      intros Hne. split.
      * intros ->. apply Hne. now rewrite <- Hw.
      * eapply Forall_impl; [|exact Hb]. now intros b [Hb1 _].
Qed.

End Splitter.

Lemma map_text_blocks (P : string -> Prop) (frags : list TextSegment) :
  forall bs : list Block,
    map text frags = map blockText bs ->
    Forall (fun b => P (blockText b)) bs ->
    Forall (fun s => P (text s)) frags.
Proof.
  induction frags as [|s frags IH]; intros [|b bs] Heq Hall;
    try discriminate; constructor.
  - injection Heq as Hs _. rewrite Hs. now inversion Hall.
  - injection Heq as _ Hr. apply (IH bs Hr). now inversion Hall.
Qed.

Lemma blockText_not_empty (b : Block) :
  fst b <> EmptyString -> blockText b <> EmptyString.
Proof.
  unfold blockText. destruct (snd b); [|auto].
  intros _. apply append_hyphen_not_empty.
Qed.

(** C4. Forced splitter totality: the splitter is a total function (its loop
    runs once per character of the word), and on a non-empty word it returns
    at least one fragment and only fragments with non-empty text, for every
    style, measurement, document state and [maxWidth]. *)
Theorem splitWordIfNeeded_total
    (measure : string -> FontStyle -> Q -> string -> Q)
    (word : string) (st : TextStyle) (d : Doc) (maxW : Q)
    (Hword : word <> EmptyString) :
  (1 <= List.length (fst (splitWordIfNeeded measure word st d maxW)))%nat
  /\ Forall (fun s => text s <> EmptyString)
            (fst (splitWordIfNeeded measure word st d maxW)).
Proof.
  destruct (splitWordIfNeeded_blocks measure d st maxW word)
    as (bs & _ & Ht & _ & _ & Hne).
  destruct (Hne Hword) as [Hbs Hall]. split.
  - rewrite <- (length_map text), Ht, length_map.
    destruct bs; [congruence | simpl; lia].
  - apply (map_text_blocks (fun t => t <> EmptyString) _ bs Ht).
    eapply Forall_impl; [|exact Hall]. intros b. apply blockText_not_empty.
Qed.

(** C10. Word-split content preservation: the fragments are, in order, the
    blocks of a partition of the word, each unchanged or with one hyphen
    appended; a hyphen is appended only to a block of at least two characters
    that is not the last; so the blocks, which are the fragments without the
    appended hyphens, concatenate to the word. *)
Theorem splitWordIfNeeded_partition
    (measure : string -> FontStyle -> Q -> string -> Q)
    (word : string) (st : TextStyle) (d : Doc) (maxW : Q) :
  exists bs : list Block,
    joinBlocks bs = word
    /\ map text (fst (splitWordIfNeeded measure word st d maxW)) = map blockText bs
    /\ hyphenOnlyInside bs.
Proof.
  destruct (splitWordIfNeeded_blocks measure d st maxW word)
    as (bs & Hj & Ht & Hh & _).
  exists bs. auto.
Qed.

(** ** The line renderer *)

Lemma applyStyle_noHeading (d : Doc) (s : TextStyle) (b : Q) (f : string) :
  heading s = None ->
  applyStyle d s b f = mkDoc f (fontStyleOf s) b (pageHeight d) (calls d).
Proof. intros H. unfold applyStyle. now rewrite H. Qed.

Lemma applyStyle_calls (d : Doc) (s : TextStyle) (b : Q) (f : string) :
  calls (applyStyle d s b f) = calls d.
Proof. unfold applyStyle. now destruct (heading s). Qed.

Lemma noHeading_cons (s : TextSegment) (segs : list TextSegment) :
  noHeading (s :: segs) = true ->
  heading (style s) = None /\ noHeading segs = true.
Proof.
  unfold noHeading. simpl. intros H. apply andb_prop in H.
  destruct H as [H1 H2]. split; [|exact H2].
  destruct (heading (style s)); [discriminate | reflexivity].
Qed.

Section Renderer.

Variable measure : string -> FontStyle -> Q -> string -> Q.

(** The measuring pass of the justifier leaves font name, size and the
    drawing log alone and returns the sum of the natural widths. *)
Lemma addTextWidth_fold (segs : list TextSegment) :
  forall (acc : Q) (d : Doc),
    noHeading segs = true ->
    let r := fold_left (addTextWidth measure) segs (acc, d) in
    fst r = fold_left (fun a s => a + naturalWidth measure (docFont d) (docFontSize d) s)
                      segs acc
    /\ docFont (snd r) = docFont d
    /\ docFontSize (snd r) = docFontSize d
    /\ calls (snd r) = calls d.
Proof.
  induction segs as [|s segs IH]; intros acc d Hnh; simpl.
  - auto.
  - apply noHeading_cons in Hnh. destruct Hnh as [Hs Hnh].
    unfold JsPDF.getFontSize, JsPDF.getFontName.
    rewrite (applyStyle_noHeading _ _ _ _ Hs).
    specialize (IH (acc + getTextWidth measure
                          (mkDoc (docFont d) (fontStyleOf (style s)) (docFontSize d)
                                 (pageHeight d) (calls d)) (text s))
                   (mkDoc (docFont d) (fontStyleOf (style s)) (docFontSize d)
                          (pageHeight d) (calls d)) Hnh).
    simpl in IH. exact IH.
Qed.

Lemma drawJustified_calls (y extra : Q) (len : nat) (segs : list TextSegment) :
  forall (index : nat) (x : Q) (d : Doc),
    noHeading segs = true ->
    calls (snd (drawJustified measure y extra len segs index x d))
    = calls d ++ justifiedCalls measure (docFont d) (docFontSize d) y extra len
                                segs index x.
Proof.
  induction segs as [|s segs IH]; intros index x d Hnh; simpl.
  - now rewrite app_nil_r.
  - apply noHeading_cons in Hnh. destruct Hnh as [Hs Hnh].
    unfold JsPDF.getFontSize, JsPDF.getFontName.
    rewrite (applyStyle_noHeading _ _ _ _ Hs).
    rewrite (IH _ _ _ Hnh). simpl. rewrite <- app_assoc. simpl.
    unfold getTextWidth, naturalWidth. simpl.
    destruct (isGap s && (Z.of_nat index <? Z.of_nat len - 1)%Z); reflexivity.
Qed.

(** C6, as amended. Justify gap distribution: on a line of two or more
    segments that is not the last of its block, [totalTextWidth] is the sum
    of the widths of all segments of the line, gap markers included;
    [extraPerGap] is [max(0, availableWidth - totalTextWidth)] divided by
    the number of gap markers (0 without gap); each segment is drawn at the
    cursor, which then advances by the natural width of the segment and,
    after a gap marker that is not the last segment, by [extraPerGap] more. *)
Theorem renderJustifiedLine_distribution
    (d : Doc) (segs : list TextSegment) (x y availableWidth : Q)
    (Hstyles : noHeading segs = true)
    (Hlen : (2 <= List.length segs)%nat) :
  calls (renderJustifiedLine measure d segs x y availableWidth false)
  = calls d ++ justifyAllSegments measure (docFont d) (docFontSize d)
                                  segs x y availableWidth.
Proof.
  unfold renderJustifiedLine, justifyAllSegments, sumWidths, extraPerGap.
  apply Nat.leb_gt in Hlen. simpl orb. rewrite Hlen.
  destruct (addTextWidth_fold segs 0 d Hstyles) as (Ht & Hf & Hz & Hc).
  destruct (fold_left (addTextWidth measure) segs (0, d)) as [total d1].
  simpl in Ht, Hf, Hz, Hc. subst total.
  rewrite (drawJustified_calls _ _ _ _ _ _ _ Hstyles).
  now rewrite Hf, Hz, Hc.
Qed.

End Renderer.

(** C6, as stated, fails: on the line "a", gap, "b" in a width of 10 with
    glyphs of width 1, the drawing differs from the one obtained with the
    total taken over the non-gap segments only. *)
Lemma renderJustifiedLine_total_includes_gaps :
  sameDrawing
    (calls (renderJustifiedLine monoMeasure (plainDoc 2) threeSegments 0 0 10 false))
    (calls (plainDoc 2)
     ++ justifyAsSpecified monoMeasure "Helvetica" 2 threeSegments 0 0 10)
  = false.
Proof. vm_compute. reflexivity. Qed.

(** ** The justify fallback against left alignment *)

Section Fallback.

Variable measure : string -> FontStyle -> Q -> string -> Q.


Lemma addStyledWidth_fold (o : PDFMarkdownOptions) (segs : list TextSegment) :
  forall (acc : Q) (d : Doc),
    calls (snd (fold_left (addStyledWidth measure o) segs (acc, d))) = calls d.
Proof.
  induction segs as [|s segs IH]; intros acc d; simpl; [reflexivity|].
  rewrite IH. unfold applyStyle. now destruct (heading (style s)).
Qed.



End Fallback.


(** ** The page driver on a heading that fits on one line *)

Section OneWord.

Variable measure : string -> FontStyle -> Q -> string -> Q.

(** A single word that fits is laid out as one line holding that word. *)
Lemma splitTextToLines_one_word
    (d : Doc) (w : string) (st : TextStyle) (maxW bi : Q) (f : string) :
  heading st = None ->
  splitWs w = [w] ->
  w <> EmptyString ->
  measure f (fontStyleOf st) (docFontSize d) w <= maxW - bi * docFontSize d ->
  splitTextToLines measure d [mkSeg w st] maxW bi f
  = ([[mkSeg w st]],
     mkDoc f (fontStyleOf st) (docFontSize d) (pageHeight d) (calls d)).
Proof.
  intros Hh Hw Hne Hfit.
  unfold splitTextToLines. simpl fold_left. unfold placeSegment. simpl text.
  rewrite Hw. simpl fold_left. unfold placeWord.
  rewrite (nonEmpty_true _ Hne). simpl negb. cbv iota.
  unfold JsPDF.getFontSize. simpl style.
  rewrite (applyStyle_noHeading _ _ _ _ Hh).
  unfold getTextWidth. simpl.
  assert (H1 : Num.leb (0 + 0 + measure f (fontStyleOf st) (docFontSize d) w)
                       (maxW - bi * docFontSize d) = true).
  { apply Qle_bool_iff. lra. }
  rewrite H1. simpl.
  unfold fitLine, measureLine. simpl.
  unfold JsPDF.getFontSize. simpl.
  rewrite (applyStyle_noHeading _ _ _ _ Hh). unfold getTextWidth. simpl.
  assert (H2 : Num.gtb (0 + measure f (fontStyleOf st) (docFontSize d) w)
                       (maxW - bi * docFontSize d) = false).
  { unfold Num.gtb. apply negb_false_iff. apply Qle_bool_iff. lra. }
  rewrite H2. reflexivity.
Qed.

End OneWord.

Section PageDriver.

Variable measure : string -> FontStyle -> Q -> string -> Q.

(** The heading branch of the driver's loop. *)
Lemma layoutLines_heading
    (o : PDFMarkdownOptions) (x lineH maxY : Q) (raw : string)
    (rest : list string) (currentY : Q) (d : Doc)
    (level : nat) (content : string) :
  Str.nonEmpty (Str.trim raw) = true ->
  headerMatch (Str.trim raw) = Some (level, content) ->
  Num.gtb (currentY + lineH) maxY = false ->
  layoutLines measure o x lineH maxY (raw :: rest) currentY d
  = let '(currentY2, d3) :=
      layoutBlock measure o (flowPlacement o x (calculateIndentation raw))
                  lineH maxY content (maxWidth o) (calculateIndentation raw)
                  (currentY + lineH)
                  (JsPDF.setFont (font o) fs_bold
                     (JsPDF.setFontSize (headingFontSize o level) d)) in
    layoutLines measure o x lineH maxY rest currentY2
                (JsPDF.setFont (font o) normal
                   (JsPDF.setFontSize (fontSize o) d3)).
Proof.
  intros Hne Hm Hy. cbn [layoutLines]. rewrite Hne, Hm, Hy. cbn [negb].
  destruct (layoutBlock _ _ _ _ _ _ _ _ _ _). reflexivity.
Qed.

(** The page-bottom check of the driver's loop. *)
Lemma layoutLines_page_full
    (o : PDFMarkdownOptions) (x lineH maxY : Q) (raw : string)
    (rest : list string) (currentY : Q) (d : Doc) :
  Str.nonEmpty (Str.trim raw) = true ->
  Num.gtb (currentY + lineH) maxY = true ->
  layoutLines measure o x lineH maxY (raw :: rest) currentY d = (currentY, d).
Proof.
  intros Hne Hy. cbn [layoutLines]. now rewrite Hne, Hy.
Qed.

(** A line of one segment is drawn by one call, whatever the alignment. *)
Lemma placeLine_single
    (o : PDFMarkdownOptions) (p : Placement) (s : TextSegment)
    (y : Q) (isLast : bool) (d : Doc) :
  exists c,
    calls (placeLine measure o p [s] y isLast d) = calls d ++ [c]
    /\ dc_text c = text s /\ dc_y c = y.
Proof.
  unfold placeLine, renderJustifiedLine.
  replace (isLast || (List.length [s] <=? 1)%nat) with true
    by (symmetry; apply orb_true_r).
  destruct (align o) as [[] |]; simpl; rewrite ?applyStyle_calls;
    (eexists; split; [reflexivity | split; reflexivity]).
Qed.

(** C8, as amended. Page truncation: with starting [y = 0], effective line
    height 10 and page bottom 12, and provided the heading "Title" fits on
    one line (its width in the normal style at the heading size is at most
    [maxWidth] minus the indentation 0.25 times the heading size), the
    layout of ["# Title\nSecond paragraph"] issues exactly one drawing
    call, the text "Title" at ordinate 10; the paragraph is not drawn, and
    the returned [y] is 10, which is at most the page bottom. *)
Theorem page_truncation_after_heading
    (d : Doc) (x : Q) (o : PDFMarkdownOptions)
    (HlineHeight : fontSize o * (352778 # 1000000) * lineHeight o == 10)
    (HmaxY : pageHeight d - 20 == 12)
    (Hfits : measure (font o) normal (headingFontSize o 1) "Title"
             <= maxWidth o - (1 # 4) * headingFontSize o 1) :
  let r := parsePDFMarkdown measure d titleInput x 0 o in
  fst r == 10
  /\ fst r <= 12
  /\ exists c, calls (snd r) = calls d ++ [c]
               /\ dc_text c = "Title" /\ dc_y c == 10.
Proof.
  unfold parsePDFMarkdown.
  change (Str.nonEmpty titleInput) with true. cbn [negb]. cbv zeta.
  change (splitLines (collapseNewlines (replaceDashes titleInput)))
    with ["# Title"; "Second paragraph"].
  set (lineH := fontSize o * (352778 # 1000000) * lineHeight o) in *.
  cbn [pageHeight JsPDF.setFontSize JsPDF.setFont].
  set (maxY := pageHeight d - 20) in *.
  assert (Hbi : calculateIndentation "# Title" == 1 # 4) by reflexivity.
  rewrite (layoutLines_heading o x lineH maxY "# Title" _ 0 _ 1 "Title");
    [ | reflexivity | reflexivity
      | unfold Num.gtb; apply negb_false_iff, Qle_bool_iff; lra ].
  unfold layoutBlock.
  change (parseInlineMarkdown "Title") with [mkSeg "Title" initialStyle].
  rewrite splitTextToLines_one_word;
    [ | reflexivity | reflexivity | discriminate
      | cbn [docFontSize JsPDF.setFontSize JsPDF.setFont];
        change (fontStyleOf initialStyle) with normal; rewrite Hbi; exact Hfits ].
  cbn [renderLines List.length].
  assert (Hy1 : Num.gtb (0 + lineH) maxY = false).
  { unfold Num.gtb. apply negb_false_iff, Qle_bool_iff. lra. }
  rewrite Hy1.
  change (Z.of_nat 0 <? Z.of_nat 1 - 1)%Z with false. cbv iota.
  match goal with
  | |- context [placeLine measure o ?p [?s] ?y ?b ?d0] =>
      destruct (placeLine_single o p s y b d0) as (c & Hc & Htext & Hy);
      set (d3 := placeLine measure o p [s] y b d0) in *
  end.
  rewrite layoutLines_page_full;
    [ | reflexivity
      | unfold Num.gtb; apply negb_true_iff;
        destruct (Qle_bool (0 + lineH + lineH) maxY) eqn:E; [|reflexivity];
        apply Qle_bool_iff in E; lra ].
  cbn [fst snd]. split; [lra|]. split; [lra|].
  exists c. cbn [calls JsPDF.setFontSize JsPDF.setFont].
  rewrite Hc. cbn [calls]. split; [reflexivity|].
  split; [exact Htext|]. rewrite Hy. lra.
Qed.

End PageDriver.

Lemma page_truncation_after_heading_witness :
  fontSize (tenPointOptions None 500) * (352778 # 1000000)
    * lineHeight (tenPointOptions None 500) == 10
  /\ pageHeight shortPage - 20 == 12
  /\ (let r := parsePDFMarkdown monoMeasure shortPage titleInput 0 0
                                (tenPointOptions None 500) in
      fst r == 10
      /\ fst r <= 12
      /\ exists c, calls (snd r) = calls shortPage ++ [c]
                   /\ dc_text c = "Title" /\ dc_y c == 10).
Proof.
  split; [reflexivity|]. split; [reflexivity|].
  apply (page_truncation_after_heading monoMeasure shortPage 0
                                       (tenPointOptions None 500)).
  - reflexivity.
  - reflexivity.
  - vm_compute. intros H. discriminate H.
Defined.

(** C8, as stated, fails when the heading wraps: in a width of 142 the
    heading is broken into "Tit-" and "le", the cursor moves on to the second
    line, and the returned [y] is 20, below the page bottom 12. *)
Lemma page_truncation_wrapped_heading :
  fontSize (tenPointOptions None 142) * (352778 # 1000000)
    * lineHeight (tenPointOptions None 142) == 10
  /\ pageHeight shortPage - 20 == 12
  /\ map dc_text
         (calls (snd (parsePDFMarkdown monoMeasure shortPage titleInput 0 0
                                       (tenPointOptions None 142))))
     = ["Tit-"]
  /\ fst (parsePDFMarkdown monoMeasure shortPage titleInput 0 0
                           (tenPointOptions None 142)) == 20
  /\ ~ (fst (parsePDFMarkdown monoMeasure shortPage titleInput 0 0
                              (tenPointOptions None 142)) == 10)
  /\ ~ (fst (parsePDFMarkdown monoMeasure shortPage titleInput 0 0
                              (tenPointOptions None 142)) <= 12).
Proof.
  split; [reflexivity|]. split; [reflexivity|].
  split; [vm_compute; reflexivity|].
  split; [vm_compute; reflexivity|].
  split; vm_compute; intros H; [discriminate H | apply H; reflexivity].
Qed.

(** ** Heading blocks *)

(** C5 fails on the code. The heading line "# Title" under the default
    alignment is drawn by one call in the normal weight at the base font
    size 12, not in bold at the heading size 12 * 2.2; under 'justify' it is
    drawn at the heading size, still in the normal weight.  The base size and
    the normal weight are in force after the block. *)
Theorem heading_drawn_without_heading_style :
  (let o := exampleOptions None 500 in
   let r := parsePDFMarkdown monoMeasure (plainDoc 12) "# Title" 0 0 o in
   exists c,
     calls (snd r) = [c]
     /\ dc_text c = "Title"
     /\ dc_style c = normal
     /\ dc_size c == fontSize o
     /\ ~ (dc_size c == headingFontSize o 1)
     /\ docFontSize (snd r) == fontSize o
     /\ docFontStyle (snd r) = normal)
  /\ (let o := exampleOptions (Some Align.justify) 500 in
      let r := parsePDFMarkdown monoMeasure (plainDoc 12) "# Title" 0 0 o in
      exists c,
        calls (snd r) = [c]
        /\ dc_text c = "Title"
        /\ dc_style c = normal
        /\ dc_size c == headingFontSize o 1
        /\ docFontSize (snd r) == fontSize o
        /\ docFontStyle (snd r) = normal).
Proof.
  split; cbv zeta; eexists.
  - split; [vm_compute; reflexivity|].
    repeat split; try reflexivity.
    vm_compute. intros H. discriminate H.
  - split; [vm_compute; reflexivity|].
    repeat split; reflexivity.
Qed.

(** ** Instances *)


Lemma splitWordIfNeeded_total_witness :
  "abc" <> EmptyString
  /\ (1 <= List.length
             (fst (splitWordIfNeeded monoMeasure "abc" initialStyle (plainDoc 2)
                                     (1 # 10))))%nat
  /\ Forall (fun s => text s <> EmptyString)
            (fst (splitWordIfNeeded monoMeasure "abc" initialStyle (plainDoc 2)
                                    (1 # 10))).
Proof.
  split; [discriminate|].
  apply (splitWordIfNeeded_total monoMeasure "abc" initialStyle (plainDoc 2) (1 # 10)).
  discriminate.
Defined.

Lemma renderJustifiedLine_distribution_witness :
  noHeading threeSegments = true
  /\ (2 <= List.length threeSegments)%nat
  /\ calls (renderJustifiedLine monoMeasure (plainDoc 2) threeSegments 0 0 10 false)
     = calls (plainDoc 2)
       ++ justifyAllSegments monoMeasure (docFont (plainDoc 2))
                             (docFontSize (plainDoc 2)) threeSegments 0 0 10.
Proof.
  split; [reflexivity|]. split; [simpl; lia|].
  apply (renderJustifiedLine_distribution monoMeasure (plainDoc 2) threeSegments
                                          0 0 10);
    [reflexivity | simpl; lia].
Defined.


(** ** The line breaker *)

Lemma jsSet_end {A : Type} (h : A) (l : list A) (v : A) :
  jsSet h l (List.length l) v = l ++ [v].
Proof.
  unfold jsSet. rewrite Nat.ltb_irrefl, Nat.sub_diag. reflexivity.
Qed.

Lemma jsSet_last {A : Type} (h : A) (l : list A) (x v : A) :
  jsSet h (l ++ [x]) (List.length l) v = l ++ [v].
Proof.
  unfold jsSet.
  assert (Hlt : (List.length l <? List.length (l ++ [x]))%nat = true).
  { apply Nat.ltb_lt. rewrite length_app. simpl. lia. }
  rewrite Hlt.
  rewrite firstn_app, firstn_all, Nat.sub_diag. simpl firstn. rewrite app_nil_r.
  rewrite skipn_all2; [reflexivity|].
  rewrite length_app. simpl. lia.
Qed.

Lemma noSpace_append (a b : string) :
  noSpace (a ++ b) = noSpace a && noSpace b.
Proof.
  unfold noSpace. induction a as [|c a IH]; simpl; [reflexivity|].
  now rewrite IH, andb_assoc.
Qed.

Lemma noSpace_not_gap (s : TextSegment) :
  noSpace (text s) = true -> isGap s = false.
Proof.
  unfold isGap. intros H. destruct (String.eqb_spec (text s) Str.space) as [E|E];
    [|reflexivity].
  rewrite E in H. discriminate H.
Qed.

Lemma splitWsFrom_noSpace (s : string) :
  forall (cur : string) (inSep : bool),
    noSpace cur = true ->
    Forall (fun w => noSpace w = true) (splitWsFrom s cur inSep).
Proof.
  induction s as [|c s IH]; intros cur inSep Hcur; simpl.
  - repeat constructor. exact Hcur.
  - destruct (Str.isSpace c) eqn:Hc.
    + destruct inSep; [|constructor; [exact Hcur|]]; now apply IH.
    + apply IH. unfold Str.snoc. rewrite noSpace_append, Hcur. simpl.
      unfold noSpace. simpl. now rewrite Hc.
Qed.

Lemma joinBlocks_noSpace (bs : list Block) :
  noSpace (joinBlocks bs) = true ->
  Forall (fun b => noSpace (fst b) = true) bs.
Proof.
  induction bs as [|b bs IH]; intros H; constructor.
  - change (b :: bs) with ([b] ++ bs) in H.
    unfold joinBlocks in H. rewrite map_app, concat_app, noSpace_append in H.
    apply andb_prop in H. exact (proj1 H).
  - apply IH. change (b :: bs) with ([b] ++ bs) in H.
    unfold joinBlocks in H. rewrite map_app, concat_app, noSpace_append in H.
    apply andb_prop in H. exact (proj2 H).
Qed.

Section Parts.

Variable measure : string -> FontStyle -> Q -> string -> Q.

(** The fragments of a word without whitespace carry the style of the word
    and contain no whitespace. *)
Lemma splitWordIfNeeded_parts
    (word : string) (st : TextStyle) (d : Doc) (maxW : Q) :
  noSpace word = true ->
  Forall (fun p => style p = st /\ noSpace (text p) = true)
         (fst (splitWordIfNeeded measure word st d maxW)).
Proof.
  intros Hw.
  destruct (splitWordIfNeeded_blocks measure d st maxW word)
    as (bs & Hj & Ht & _ & Hs & _).
  rewrite <- Hj in Hw. apply joinBlocks_noSpace in Hw.
  assert (Hn : Forall (fun p => noSpace (text p) = true)
                      (fst (splitWordIfNeeded measure word st d maxW))).
  { apply (map_text_blocks (fun t => noSpace t = true) _ bs Ht).
    eapply Forall_impl; [|exact Hw]. intros b Hb. unfold blockText.
    destruct (snd b); [|exact Hb]. rewrite noSpace_append, Hb. reflexivity. }
  rewrite Forall_forall in *. intros p Hp. split; auto.
Qed.

Lemma splitWordIfNeeded_doc
    (word : string) (st : TextStyle) (d : Doc) (maxW : Q) :
  snd (splitWordIfNeeded measure word st d maxW)
  = applyStyle d st (docFontSize d) (docFont d).
Proof.
  unfold splitWordIfNeeded, JsPDF.getFontSize, JsPDF.getFontName.
  destruct (Num.leb _ _); [reflexivity|].
  destruct (0 <? _)%nat; reflexivity.
Qed.

End Parts.

Section FirstPass.

Variable measure : string -> FontStyle -> Q -> string -> Q.
Variables (f : string) (sz sp W : Q).

Local Abbreviation width := (lineWidthOf measure f sz sp).
Local Abbreviation Inv := (BreakerInv measure f sz sp W).

Lemma lineWidthOf_snoc (l : Line) (s : TextSegment) :
  width (l ++ [s]) == width l + segmentWidth measure f sz sp s.
Proof. induction l as [|a l IH]; simpl; lra. Qed.

Lemma nonEmptyLine_false (l : Line) : nonEmptyLine l = false -> l = [].
Proof. destruct l; [reflexivity | discriminate]. Qed.

Lemma nonEmptyLine_true (l : Line) : nonEmptyLine l = true -> l <> [].
Proof. destruct l; [discriminate | intros _; discriminate]. Qed.

Lemma commitLine_inv (b : Breaker) :
  Inv b -> Inv (commitLine b) /\ currentLineSegments (commitLine b) = [].
Proof.
  intros [(committed & Hl & Hc & Hg) Hs Hw Hf]. unfold commitLine.
  destruct (nonEmptyLine (currentLineSegments b)) eqn:Hne.
  - split; [|reflexivity]. constructor; simpl.
    + exists (committed ++ [currentLineSegments b]).
      rewrite Hl, Hc, jsSet_last.
      replace (S (List.length committed))
        with (List.length (committed ++ [currentLineSegments b]))
        by (rewrite length_app; simpl; lia).
      rewrite jsSet_end. split; [reflexivity|]. split; [reflexivity|].
      apply Forall_app. split; [exact Hg|].
      constructor; [|constructor]. split; [|split].
      * now apply nonEmptyLine_true.
      * exact Hs.
      * destruct Hf as [E | Hfit]; [|exact Hfit].
        rewrite E in Hne. discriminate Hne.
    + constructor.
    + lra.
    + now left.
  - split; [|now apply nonEmptyLine_false].
    constructor; eauto.
Qed.

Lemma pushSegment_inv (s : TextSegment) (w : Q) (b : Breaker) :
  Inv b ->
  okSegment s ->
  w == width (currentLineSegments b ++ [s]) ->
  fitsWidth measure f sz sp W (currentLineSegments b ++ [s]) ->
  Inv (pushSegment s w b).
Proof.
  intros [Hl Hs Hw Hf] Hok Hweq Hfit. constructor; simpl.
  - exact Hl.
  - apply Forall_app. split; [exact Hs | constructor; [exact Hok | constructor]].
  - exact Hweq.
  - now right.
Qed.

Lemma word_width (p : TextSegment) :
  noSpace (text p) = true ->
  width [p] == naturalWidth measure f sz p.
Proof.
  intros Hn. simpl. unfold segmentWidth. rewrite (noSpace_not_gap _ Hn). lra.
Qed.

Lemma placeParts_inv (d : Doc) (parts : list TextSegment) :
  forall (index : nat) (b : Breaker),
    Inv b ->
    (index = 0%nat -> currentLineSegments b = []) ->
    Forall (setIn measure f sz d) parts ->
    Inv (placeParts measure d parts index b).
Proof.
  induction parts as [|p parts IH]; intros index b HI H0 Hparts; simpl.
  - exact HI.
  - inversion Hparts as [|? ? (Hh & Hn & Hw) Hrest]; subst.
    set (b1 := if (0 <? index)%nat then commitLine b else b).
    assert (H1 : Inv b1 /\ currentLineSegments b1 = []).
    { unfold b1. destruct (0 <? index)%nat eqn:E.
      - now apply commitLine_inv.
      - split; [exact HI|]. apply H0. apply Nat.ltb_ge in E. lia. }
    destruct H1 as [HI1 Hc1].
    apply IH; [|discriminate|exact Hrest].
    apply pushSegment_inv; [exact HI1| | |]; rewrite ?Hc1; simpl app.
    + split; [exact Hh | now right].
    + rewrite Hw. symmetry. now apply word_width.
    + right. exists p. split; [reflexivity | now apply noSpace_not_gap].
Qed.

Lemma placeWord_inv (st : TextStyle) (b : Breaker) (d : Doc) (word : string) :
  Inv b -> docFontSize d = sz -> heading st = None -> noSpace word = true ->
  Inv (fst (placeWord measure f W sp st (b, d) word))
  /\ docFontSize (snd (placeWord measure f W sp st (b, d) word)) = sz.
Proof.
  intros HI Hsz Hh Hw. unfold placeWord.
  destruct (Str.nonEmpty word) eqn:Hne; cbn [negb]; [|split; assumption].
  unfold JsPDF.getFontSize. rewrite (applyStyle_noHeading _ _ _ _ Hh), Hsz.
  set (d1 := mkDoc f (fontStyleOf st) sz (pageHeight d) (calls d)).
  change (getTextWidth measure d1 word)
    with (naturalWidth measure f sz (mkSeg word st)).
  set (ws := mkSeg word st). set (ww := naturalWidth measure f sz ws).
  assert (Hwidth : width [ws] == ww) by (apply word_width; exact Hw).
  assert (Hokw : okSegment ws) by (split; [exact Hh | now right]).
  destruct (Num.leb _ W) eqn:Hfit.
  - apply Qle_bool_iff in Hfit. cbn [fst snd]. split; [|reflexivity].
    destruct HI as [Hl Hs Hcw Hf].
    destruct (nonEmptyLine (currentLineSegments b)) eqn:Hcur.
    + set (gap := mkSeg Str.space st).
      assert (Hall : width ((currentLineSegments b ++ [gap]) ++ [ws])
                     == currentLineWidth b + sp + ww).
      { rewrite !lineWidthOf_snoc. unfold segmentWidth at 1 2.
        change (isGap gap) with true.
        rewrite (noSpace_not_gap ws Hw). cbv iota.
        fold ww. rewrite Hcw. lra. }
      constructor; cbn [pushSegment lines currentLine currentLineWidth
                        currentLineSegments].
      * exact Hl.
      * repeat (apply Forall_app; split); try exact Hs;
          (constructor; [|constructor]); [split; [exact Hh | now left] | exact Hokw].
      * rewrite Hall. lra.
      * right. left. rewrite Hall. exact Hfit.
    + apply nonEmptyLine_false in Hcur.
      constructor; cbn [pushSegment lines currentLine currentLineWidth
                        currentLineSegments]; rewrite ?Hcur in *; simpl app.
      * exact Hl.
      * constructor; [exact Hokw | constructor].
      * simpl in Hcw. rewrite Hwidth. lra.
      * right. left. simpl in Hcw. rewrite Hwidth. lra.
  - clear Hfit. destruct (Num.leb ww W) eqn:Hfit.
    + apply Qle_bool_iff in Hfit. cbn [fst snd]. split; [|reflexivity].
      destruct (commitLine_inv b HI) as [HI1 Hc1].
      apply pushSegment_inv; [exact HI1 | exact Hokw | |]; rewrite Hc1; simpl app.
      * rewrite Hwidth. lra.
      * left. rewrite Hwidth. exact Hfit.
    + clear Hfit.
      set (b1 := if nonEmptyLine (currentLineSegments b) then commitLine b else b).
      assert (H1 : Inv b1 /\ currentLineSegments b1 = []).
      { unfold b1. destruct (nonEmptyLine (currentLineSegments b)) eqn:E.
        - now apply commitLine_inv.
        - split; [exact HI | now apply nonEmptyLine_false]. }
      destruct H1 as [HI1 Hc1].
      pose proof (splitWordIfNeeded_parts measure word st d1 W Hw) as Hparts.
      pose proof (splitWordIfNeeded_doc measure word st d1 W) as Hdoc.
      destruct (splitWordIfNeeded measure word st d1 W) as [parts d2].
      cbn [fst snd] in *.
      rewrite (applyStyle_noHeading _ _ _ _ Hh) in Hdoc. subst d2.
      split; [|reflexivity].
      apply placeParts_inv; [exact HI1 | intros _; exact Hc1 |].
      eapply Forall_impl; [|exact Hparts].
      intros p [Hst Hn]. split; [now rewrite Hst|]. split; [exact Hn|].
      unfold getTextWidth, naturalWidth. now rewrite Hst.
Qed.

Lemma placeWords_inv (st : TextStyle) (words : list string) :
  forall (acc : Breaker * Doc),
    heading st = None ->
    Forall (fun w => noSpace w = true) words ->
    Inv (fst acc) -> docFontSize (snd acc) = sz ->
    Inv (fst (fold_left (placeWord measure f W sp st) words acc))
    /\ docFontSize (snd (fold_left (placeWord measure f W sp st) words acc)) = sz.
Proof.
  induction words as [|w words IH]; intros [b d] Hh Hws HI Hsz; simpl.
  - split; assumption.
  - apply Forall_cons_iff in Hws. destruct Hws as [Hw Hrest].
    destruct (placeWord_inv st b d w HI Hsz Hh Hw) as [HI1 Hsz1].
    apply IH; assumption.
Qed.

Lemma placeSegments_inv (segments : list TextSegment) :
  forall (acc : Breaker * Doc),
    noHeading segments = true ->
    Inv (fst acc) -> docFontSize (snd acc) = sz ->
    Inv (fst (fold_left (placeSegment measure f W sp) segments acc))
    /\ docFontSize (snd (fold_left (placeSegment measure f W sp) segments acc)) = sz.
Proof.
  induction segments as [|s segments IH]; intros acc Hnh HI Hsz; simpl.
  - split; assumption.
  - apply noHeading_cons in Hnh. destruct Hnh as [Hs Hnh].
    assert (Hstep := placeWords_inv (style s) (splitWs (text s)) acc Hs
                       (splitWsFrom_noSpace (text s) EmptyString false eq_refl)
                       HI Hsz).
    destruct Hstep as [HI1 Hsz1].
    apply IH; assumption.
Qed.

End FirstPass.

Section SecondPass.

Variable measure : string -> FontStyle -> Q -> string -> Q.
Variables (f : string) (sz sp W : Q).

Local Abbreviation width := (lineWidthOf measure f sz sp).
Local Abbreviation RInv := (RebuildInv measure f sz sp W).

(** The measuring pass keeps the font size and leaves the document in
    font [f] once it has measured a segment. *)
Lemma measureLine_doc (line : Line) :
  forall (acc : Q) (d : Doc),
    Forall okSegment line ->
    docFontSize d = sz ->
    let r := fold_left
               (fun (a : Q * Doc) (segment : TextSegment) =>
                  let '(lineWidth, d0) := a in
                  let d1 := applyStyle d0 (style segment) (JsPDF.getFontSize d0) f in
                  (lineWidth + getTextWidth measure d1 (text segment), d1))
               line (acc, d) in
    docFontSize (snd r) = sz
    /\ (docFont d = f \/ line <> [] -> docFont (snd r) = f).
Proof.
  induction line as [|s line IH]; intros acc d Hok Hsz; simpl.
  - split; [exact Hsz|]. intros [H | H]; [exact H | congruence].
  - apply Forall_cons_iff in Hok. destruct Hok as [[Hh _] Hok].
    unfold JsPDF.getFontSize. rewrite (applyStyle_noHeading _ _ _ _ Hh).
    match goal with
    | |- context [fold_left _ line (?a, ?d1)] =>
        destruct (IH a d1 Hok Hsz) as [H1 H2]
    end.
    split; [exact H1|]. intros _. apply H2. now left.
Qed.

Lemma readmitParts_inv (d : Doc) (parts : list TextSegment) :
  forall r : Rebuild,
    RInv r ->
    Forall (setIn measure f sz d) parts ->
    RInv (fold_left (readmitPart measure d W) parts r).
Proof.
  induction parts as [|p parts IH]; intros r HR Hparts; simpl; [exact HR|].
  apply Forall_cons_iff in Hparts. destruct Hparts as [(Hh & Hn & Hw) Hparts].
  apply IH; [|exact Hparts].
  unfold readmitPart. rewrite Hw.
  destruct (Num.leb _ W) eqn:Hfit; [|exact HR].
  apply Qle_bool_iff in Hfit. destruct HR as [Hs Hcw Hf].
  constructor; cbn [newLine currentWidth].
  - apply Forall_app. split; [exact Hs|].
    constructor; [split; [exact Hh | now right] | constructor].
  - rewrite lineWidthOf_snoc. unfold segmentWidth.
    rewrite (noSpace_not_gap _ Hn). rewrite Hcw. lra.
  - now right.
Qed.

Lemma rebuildStep_inv (r : Rebuild) (d : Doc) (segment : TextSegment) :
  RInv r -> faceOf f sz d -> okSegment segment ->
  RInv (fst (rebuildStep measure W sp (r, d) segment))
  /\ faceOf f sz (snd (rebuildStep measure W sp (r, d) segment)).
Proof.
  intros HR [Hfont Hsize] [Hh Hkind]. unfold rebuildStep.
  destruct (String.eqb (text segment) Str.space) eqn:Hgap.
  - destruct (Num.leb _ W) eqn:Hfit; cbn [fst snd];
      (split; [|split; assumption]); [|exact HR].
    apply Qle_bool_iff in Hfit. destruct HR as [Hs Hcw Hf].
    constructor; cbn [newLine currentWidth].
    + apply Forall_app. split; [exact Hs|].
      constructor; [split; [exact Hh | now left] | constructor].
    + rewrite lineWidthOf_snoc. unfold segmentWidth, isGap.
      rewrite Hgap, Hcw. lra.
    + now right.
  - assert (Hn : noSpace (text segment) = true).
    { destruct Hkind as [Hg | Hn]; [|exact Hn].
      unfold isGap in Hg. rewrite Hgap in Hg. discriminate Hg. }
    pose proof (splitWordIfNeeded_parts measure (text segment) (style segment) d
                  (W - currentWidth r) Hn) as Hparts.
    pose proof (splitWordIfNeeded_doc measure (text segment) (style segment) d
                  (W - currentWidth r)) as Hdoc.
    destruct (splitWordIfNeeded measure (text segment) (style segment) d
                                (W - currentWidth r)) as [parts d1].
    cbn [fst snd] in *.
    rewrite (applyStyle_noHeading _ _ _ _ Hh), Hfont, Hsize in Hdoc.
    rewrite Hdoc. split; [|split; reflexivity].
    apply readmitParts_inv; [exact HR|].
    eapply Forall_impl; [|exact Hparts].
    intros p [Hst Hp]. split; [now rewrite Hst|]. split; [exact Hp|].
    unfold getTextWidth, naturalWidth. now rewrite Hst.
Qed.

Lemma rebuild_inv (line : Line) :
  forall (acc : Rebuild * Doc),
    RInv (fst acc) -> faceOf f sz (snd acc) -> Forall okSegment line ->
    RInv (fst (fold_left (rebuildStep measure W sp) line acc))
    /\ faceOf f sz (snd (fold_left (rebuildStep measure W sp) line acc)).
Proof.
  induction line as [|s line IH]; intros [r d] HR Hface Hok; simpl.
  - split; assumption.
  - apply Forall_cons_iff in Hok. destruct Hok as [Hs Hok].
    destruct (rebuildStep_inv r d s HR Hface Hs) as [HR1 Hface1].
    apply IH; assumption.
Qed.

Lemma measureLine_face (d : Doc) (line : Line) :
  Forall okSegment line -> docFontSize d = sz -> line <> [] ->
  faceOf f sz (snd (measureLine measure f d line)).
Proof.
  intros Hok Hsz Hne.
  destruct (measureLine_doc line 0 d Hok Hsz) as [H1 H2].
  split; [apply H2; now right | exact H1].
Qed.

Lemma measureLine_single (d : Doc) (s : TextSegment) :
  heading (style s) = None -> docFontSize d = sz ->
  fst (measureLine measure f d [s]) = 0 + naturalWidth measure f sz s.
Proof.
  intros Hh Hsz. unfold measureLine. simpl. unfold JsPDF.getFontSize.
  rewrite (applyStyle_noHeading _ _ _ _ Hh), Hsz. reflexivity.
Qed.

Lemma fitLine_inv (d : Doc) (line : Line) :
  goodLine measure f sz sp W line ->
  docFontSize d = sz ->
  bounded measure f sz sp W (fst (fitLine measure f W sp d line))
  /\ docFontSize (snd (fitLine measure f W sp d line)) = sz.
Proof.
  intros (Hne & Hok & Hfits) Hsz. unfold fitLine.
  pose proof (measureLine_face d line Hok Hsz Hne) as Hface.
  assert (Hkeep : Num.gtb (fst (measureLine measure f d line)) W = false ->
                  width line <= W).
  { destruct Hfits as [Hle | (s & Hs & Hg)]; [intros _; exact Hle|].
    subst line. apply Forall_cons_iff in Hok. destruct Hok as [[Hh _] _].
    rewrite (measureLine_single d s Hh Hsz). intros Hgt.
    unfold Num.gtb in Hgt. apply negb_false_iff, Qle_bool_iff in Hgt.
    simpl. unfold segmentWidth. rewrite Hg. lra. }
  destruct (measureLine measure f d line) as [lineWidth d1].
  cbn [fst snd] in *.
  destruct (Num.gtb lineWidth W).
  - assert (Hinit : RInv (mkRebuild [] 0)).
    { constructor; cbn [newLine currentWidth]; [constructor | simpl; lra | now left]. }
    destruct (rebuild_inv line (mkRebuild [] 0, d1) Hinit Hface Hok)
      as [[_ Hcw Hf] [_ Hsz2]].
    destruct (fold_left _ line (mkRebuild [] 0, d1)) as [r d2].
    cbn [fst snd] in *. split; [|exact Hsz2].
    destruct Hf as [E | Hf]; [now left | right]. rewrite <- Hcw. exact Hf.
  - cbn [fst snd]. split; [right; now apply Hkeep | exact (proj2 Hface)].
Qed.

Lemma fitLines_inv (ls : list Line) :
  forall d : Doc,
    Forall (goodLine measure f sz sp W) ls ->
    docFontSize d = sz ->
    Forall (bounded measure f sz sp W) (fst (fitLines measure f W sp d ls)).
Proof.
  induction ls as [|l ls IH]; intros d Hgood Hsz; simpl; [constructor|].
  apply Forall_cons_iff in Hgood. destruct Hgood as [Hl Hgood].
  destruct (fitLine_inv d l Hl Hsz) as [Hb Hsz1].
  destruct (fitLine measure f W sp d l) as [l1 d1]. cbn [fst snd] in *.
  specialize (IH d1 Hgood Hsz1).
  destruct (fitLines measure f W sp d1 ls) as [rest1 d2]. cbn [fst snd] in *.
  constructor; assumption.
Qed.

End SecondPass.

Lemma filter_committed (measure : string -> FontStyle -> Q -> string -> Q)
    (f : string) (sz sp W : Q) (committed : list (list TextSegment)) :
  Forall (goodLine measure f sz sp W) committed ->
  filter nonEmptyLine (committed ++ [@nil TextSegment]) = committed.
Proof.
  induction committed as [|l ls IH]; intros H; simpl; [reflexivity|].
  apply Forall_cons_iff in H. destruct H as [(Hne & _) Hrest].
  destruct l as [|s l]; [congruence|]. simpl. now rewrite (IH Hrest).
Qed.

(** C1, as amended. Width bound: for segments without heading level, every
    line returned by [splitTextToLines] is empty or has a measured width (gap
    markers at the space width, every other segment in its own style) of at
    most [availableWidth = maxWidth - baseIndentation * fontSize]; hence the
    bound holds for every line when [availableWidth] is not negative.  No
    line overflows: the final pass drops what does not fit, and the line it
    leaves may be empty. *)
Theorem splitTextToLines_width_bound
    (measure : string -> FontStyle -> Q -> string -> Q)
    (d : Doc) (segments : list TextSegment) (maxW baseIndentation : Q)
    (f : string) (l : Line)
    (Hstyles : noHeading segments = true)
    (Hline : In l (fst (splitTextToLines measure d segments maxW baseIndentation f))) :
  (l = []
   \/ lineWidthOf measure f (docFontSize d) (getTextWidth measure d Str.space) l
      <= maxW - baseIndentation * docFontSize d)
  /\ (0 <= maxW - baseIndentation * docFontSize d ->
      lineWidthOf measure f (docFontSize d) (getTextWidth measure d Str.space) l
      <= maxW - baseIndentation * docFontSize d).
Proof.
  set (sz := docFontSize d) in *.
  set (sp := getTextWidth measure d Str.space) in *.
  set (W := maxW - baseIndentation * sz) in *.
  assert (Hb : bounded measure f sz sp W l).
  { revert Hline. unfold splitTextToLines. unfold JsPDF.getFontSize.
    fold sz. fold W. fold sp.
    assert (H0 : BreakerInv measure f sz sp W (mkBreaker [[]] 0 0 [])).
    { constructor; simpl.
      - exists []. repeat split. constructor.
      - constructor.
      - lra.
      - now left. }
    destruct (placeSegments_inv measure f sz sp W segments
                (mkBreaker [[]] 0 0 [], d) Hstyles H0 eq_refl) as [H1 Hsz1].
    destruct (fold_left _ segments (mkBreaker [[]] 0 0 [], d)) as [b1 d1].
    cbn [fst snd] in H1, Hsz1. cbv beta iota zeta.
    set (b2 := if nonEmptyLine (currentLineSegments b1) then commitLine b1 else b1).
    assert (H2 : BreakerInv measure f sz sp W b2).
    { unfold b2. destruct (nonEmptyLine (currentLineSegments b1));
        [now apply commitLine_inv | exact H1]. }
    destruct H2 as [(committed & Hl & _ & Hgood) _ _ _].
    rewrite Hl, (filter_committed measure f sz sp W committed Hgood).
    intros Hin.
    pose proof (fitLines_inv measure f sz sp W committed d1 Hgood Hsz1) as Hall.
    rewrite Forall_forall in Hall. now apply Hall. }
  split; [exact Hb|].
  intros HW. destruct Hb as [-> | Hb]; [exact HW | exact Hb].
Qed.

Lemma splitTextToLines_width_bound_witness :
  noHeading [plain "ab cd"] = true
  /\ In [plain "ab"]
        (fst (splitTextToLines monoMeasure (plainDoc 2) [plain "ab cd"] 3 0 "Helvetica"))
  /\ lineWidthOf monoMeasure "Helvetica" (docFontSize (plainDoc 2))
                 (getTextWidth monoMeasure (plainDoc 2) Str.space) [plain "ab"]
     <= 3 - 0 * docFontSize (plainDoc 2).
Proof.
  assert (Hin : In [plain "ab"]
                   (fst (splitTextToLines monoMeasure (plainDoc 2) [plain "ab cd"]
                                          3 0 "Helvetica")))
    by (vm_compute; left; reflexivity).
  split; [reflexivity|]. split; [exact Hin|].
  apply (splitTextToLines_width_bound monoMeasure (plainDoc 2) [plain "ab cd"] 3 0
                                      "Helvetica" [plain "ab"] eq_refl Hin).
  vm_compute. intros H. discriminate H.
Defined.

(** C1, as stated, fails when the available width is negative: with
    [maxWidth = 1], [baseIndentation = 0.25] and font size 12 the available
    width is -2, the single line returned for the word "a" is empty, its
    width 0 exceeds -2, and it holds no fragment at all. *)
Lemma splitTextToLines_negative_width :
  ~ widthBoundWithException monoMeasure (plainDoc 12) [plain "a"] 1 (1 # 4)
                            "Helvetica".
Proof.
  intros H.
  assert (Hin : In [] (fst (splitTextToLines monoMeasure (plainDoc 12) [plain "a"]
                                             1 (1 # 4) "Helvetica")))
    by (vm_compute; left; reflexivity).
  destruct (H [] Hin) as [Hle | (s & Hs & _)].
  - vm_compute in Hle. apply Hle. reflexivity.
  - discriminate Hs.
Qed.

(** * Further properties of the code *)

(** ** The tokenizer keeps the text and only toggles bold and italic *)

Lemma string_length_ind (P : string -> Prop) :
  (forall s, (forall r, (String.length r < String.length s)%nat -> P r) -> P s) ->
  forall s, P s.
Proof.
  intros H s.
  induction s as [s IH] using (well_founded_induction
                                 (Wf_nat.well_founded_ltof _ String.length)).
  apply H. intros r Hr. apply IH. exact Hr.
Qed.

Lemma concatTexts_flush (cur : string) (st : TextStyle) (segs : list TextSegment) :
  concatTexts (flushText cur st segs) = (concatTexts segs ++ cur)%string.
Proof.
  unfold flushText. destruct cur as [|c cur]; simpl.
  - now rewrite append_empty_r.
  - unfold concatTexts. rewrite map_app, concat_app. reflexivity.
Qed.

Lemma concatTexts_scanInline (rest : string) :
  forall (cur : string) (st : TextStyle) (segs : list TextSegment),
    concatTexts (scanInline rest cur st segs)
    = (concatTexts segs ++ cur ++ stripMarkers rest)%string.
Proof.
  induction rest as [rest IH] using string_length_ind.
  intros cur st segs. destruct rest as [|c rest1]; simpl.
  - now rewrite concatTexts_flush, append_empty_r.
  - destruct (isMarker c) eqn:Hc.
    + destruct rest1 as [|c1 rest2].
      * simpl. rewrite !concatTexts_flush. now rewrite !append_empty_r.
      * destruct (Ascii.eqb_spec c1 c) as [E | E].
        -- subst c1. rewrite IH by (simpl; lia). simpl. rewrite Hc.
           now rewrite concatTexts_flush, append_assoc.
        -- rewrite IH by (simpl; lia). simpl.
           now rewrite concatTexts_flush, append_assoc.
    + rewrite IH by (simpl; lia). now rewrite snoc_append.
Qed.

(** X1. The tokenizer loses no text: the texts of the segments, taken in
    order, spell the input with its emphasis markers removed. *)
Theorem parseInlineMarkdown_text (t : string) :
  concatTexts (parseInlineMarkdown t) = stripMarkers t.
Proof.
  unfold parseInlineMarkdown. now rewrite concatTexts_scanInline.
Qed.

Lemma plainText_snoc (cur : string) (c : ascii) :
  plainText cur = true -> isMarker c = false -> plainText (Str.snoc cur c) = true.
Proof.
  unfold plainText, Str.snoc. intros Hcur Hc.
  induction cur as [|x cur IH]; simpl in *.
  - now rewrite Hc.
  - apply andb_prop in Hcur. destruct Hcur as [Hx Hcur].
    now rewrite Hx, (IH Hcur).
Qed.

Lemma tokenized_flush (cur : string) (st : TextStyle) (segs : list TextSegment) :
  plainText cur = true -> inlineOnly st -> Forall tokenized segs ->
  Forall tokenized (flushText cur st segs).
Proof.
  intros Hcur Hst Hsegs. unfold flushText.
  destruct (Str.nonEmpty cur) eqn:Hne; [|exact Hsegs].
  apply Forall_app. split; [exact Hsegs|].
  constructor; [|constructor]. split; [|split]; simpl; try assumption.
  destruct cur; [discriminate Hne | discriminate].
Qed.

Lemma inlineOnly_toggleBold (st : TextStyle) :
  inlineOnly st -> inlineOnly (toggleBold st).
Proof.
  unfold inlineOnly, toggleBold. intros H.
  rewrite H at 3 4 5 6 7. reflexivity.
Qed.

Lemma inlineOnly_toggleItalic (st : TextStyle) :
  inlineOnly st -> inlineOnly (toggleItalic st).
Proof.
  unfold inlineOnly, toggleItalic. intros H.
  rewrite H at 3 4 5 6 7. reflexivity.
Qed.

Lemma tokenized_scanInline (rest : string) :
  forall (cur : string) (st : TextStyle) (segs : list TextSegment),
    plainText cur = true -> inlineOnly st -> Forall tokenized segs ->
    Forall tokenized (scanInline rest cur st segs).
Proof.
  induction rest as [rest IH] using string_length_ind.
  intros cur st segs Hcur Hst Hsegs. destruct rest as [|c rest1]; simpl.
  - now apply tokenized_flush.
  - destruct (isMarker c) eqn:Hc.
    + destruct rest1 as [|c1 rest2].
      * simpl. apply tokenized_flush; [reflexivity | |].
        -- now apply inlineOnly_toggleItalic.
        -- now apply tokenized_flush.
      * destruct (Ascii.eqb c1 c).
        -- apply IH; [simpl; lia | reflexivity | |].
           ++ now apply inlineOnly_toggleBold.
           ++ now apply tokenized_flush.
        -- apply IH; [simpl; lia | reflexivity | |].
           ++ now apply inlineOnly_toggleItalic.
           ++ now apply tokenized_flush.
    + apply IH; [simpl; lia | | exact Hst | exact Hsegs].
      now apply plainText_snoc.
Qed.

(** X2. Every segment the tokenizer emits has a non-empty text without
    emphasis marker, and a style that differs from the initial style in bold
    and italic only: no heading level, no list field, no indentation. *)
Theorem parseInlineMarkdown_segments (t : string) :
  Forall tokenized (parseInlineMarkdown t).
Proof.
  apply tokenized_scanInline; [reflexivity | reflexivity | constructor].
Qed.

(** X3. On a text without emphasis marker the tokenizer is the identity: it
    returns the whole text as one segment in the initial style (and no
    segment for the empty text). *)
Theorem parseInlineMarkdown_plain (t : string) (Hplain : plainText t = true) :
  parseInlineMarkdown t
  = if Str.nonEmpty t then [mkSeg t initialStyle] else [].
Proof.
  unfold parseInlineMarkdown.
  rewrite <- (append_empty_r t) at 1.
  rewrite (scanInline_plain _ _ _ _ _ Hplain). simpl.
  unfold flushText. reflexivity.
Qed.

Lemma parseInlineMarkdown_plain_witness :
  plainText "Second paragraph" = true
  /\ parseInlineMarkdown "Second paragraph"
     = if Str.nonEmpty "Second paragraph"
       then [mkSeg "Second paragraph" initialStyle] else [].
Proof.
  split; [reflexivity|].
  apply (parseInlineMarkdown_plain "Second paragraph"). reflexivity.
Defined.

(** ** Indentation *)

Lemma ofNat_nonneg (n : nat) : 0 <= Num.ofNat n.
Proof. unfold Num.ofNat, Qle. simpl. lia. Qed.

Lemma ofNat_succ (n : nat) : Num.ofNat (S n) == Num.ofNat n + 1.
Proof.
  unfold Num.ofNat. rewrite Nat2Z.inj_succ, <- Z.add_1_r, inject_Z_plus.
  reflexivity.
Qed.

(** X4. Every non-blank line is indented: its base indentation is at least
    0.25, whatever its leading whitespace and whether it is a list item. *)
Theorem calculateIndentation_nonblank (t : string)
    (Hnonblank : (0 < String.length (Str.trim t))%nat) :
  1 # 4 <= calculateIndentation t.
Proof.
  unfold calculateIndentation.
  pose proof (ofNat_nonneg (leadingWhitespace t / 2)) as Hn.
  set (n := Num.ofNat (leadingWhitespace t / 2)) in *.
  destruct (listMatch t); [lra|].
  destruct (Num.gtb (n * (1 # 4)) 0); [lra|].
  apply Nat.ltb_lt in Hnonblank. rewrite Hnonblank. lra.
Qed.

Lemma calculateIndentation_nonblank_witness :
  (0 < String.length (Str.trim "  some text "))%nat
  /\ 1 # 4 <= calculateIndentation "  some text ".
Proof.
  assert (H : (0 < String.length (Str.trim "  some text "))%nat)
    by (vm_compute; lia).
  split; [exact H|].
  apply (calculateIndentation_nonblank "  some text " H).
Defined.

Lemma calculateIndentation_list (t : string) :
  listMatch t = true ->
  calculateIndentation t
  = 0 + Num.ofNat (leadingWhitespace t / 2) * (1 # 4) + (1 # 4).
Proof. intros H. unfold calculateIndentation. now rewrite H. Qed.

(** X5. Nesting of list items: two more leading whitespace characters in
    front of a list item add exactly 0.25 to its base indentation. *)
Theorem calculateIndentation_nested_list (c1 c2 : ascii) (t : string)
    (Hc1 : Str.isSpace c1 = true) (Hc2 : Str.isSpace c2 = true)
    (Hlist : listMatch t = true) :
  calculateIndentation (String c1 (String c2 t)) == calculateIndentation t + (1 # 4).
Proof.
  assert (Hl : listMatch (String c1 (String c2 t)) = true).
  { unfold listMatch in *. simpl. now rewrite Hc1, Hc2. }
  assert (Hw : leadingWhitespace (String c1 (String c2 t))
               = (leadingWhitespace t + 1 * 2)%nat).
  { unfold leadingWhitespace. simpl. rewrite Hc1, Hc2. simpl. lia. }
  rewrite (calculateIndentation_list _ Hl), (calculateIndentation_list _ Hlist).
  rewrite Hw, Nat.div_add by lia.
  rewrite Nat.add_1_r, ofNat_succ. lra.
Qed.

Lemma calculateIndentation_nested_list_witness :
  Str.isSpace " "%char = true
  /\ listMatch "- item" = true
  /\ calculateIndentation (String " "%char (String " "%char "- item"))
     == calculateIndentation "- item" + (1 # 4).
Proof.
  split; [reflexivity|]. split; [reflexivity|].
  apply (calculateIndentation_nested_list " "%char " "%char "- item");
    reflexivity.
Defined.

(** ** The block patterns *)

Lemma takeWhile_dropWhile (p : ascii -> bool) (s : string) :
  (Str.takeWhile p s ++ Str.dropWhile p s)%string = s.
Proof.
  induction s as [|c s IH]; simpl; [reflexivity|].
  destruct (p c); simpl; [now rewrite IH | reflexivity].
Qed.

Lemma drop_takeWhile (p : ascii -> bool) (s : string) :
  Str.drop (String.length (Str.takeWhile p s)) s = Str.dropWhile p s.
Proof.
  induction s as [|c s IH]; simpl; [reflexivity|].
  destruct (p c); simpl; [exact IH | reflexivity].
Qed.

Lemma takeWhile_isHash (s : string) :
  Str.takeWhile isHash s
  = repeatChar "#"%char (String.length (Str.takeWhile isHash s)).
Proof.
  induction s as [|c s IH]; simpl; [reflexivity|].
  unfold isHash at 1 3. destruct (Ascii.eqb_spec c "#"%char) as [E | E]; simpl.
  - subst c. now rewrite <- IH.
  - reflexivity.
Qed.

Lemma takeWhile_append (p : ascii -> bool) (a b : string) :
  Str.forallb p a = true -> startsWithP p b = false ->
  Str.takeWhile p (a ++ b) = a.
Proof.
  intros Ha Hb. induction a as [|c a IH]; simpl in *.
  - destruct b as [|x b]; [reflexivity|]. simpl in *. now rewrite Hb.
  - apply andb_prop in Ha. destruct Ha as [Hc Ha]. now rewrite Hc, (IH Ha).
Qed.

(** Dropping [k] of the leading separators leaves a run of [k] separators
    in front. *)
Lemma drop_separators (k : nat) :
  forall s : string,
    (k <= leadingWhitespace s)%nat ->
    exists sep,
      s = (sep ++ Str.drop k s)%string
      /\ String.length sep = k /\ Str.forallb Str.isSpace sep = true.
Proof.
  induction k as [|k IH]; intros s Hk.
  - exists EmptyString. now destruct s.
  - unfold leadingWhitespace in Hk.
    destruct s as [|c s]; [simpl in Hk; lia|]. simpl in Hk.
    destruct (Str.isSpace c) eqn:Hc; [|simpl in Hk; lia].
    simpl in Hk. destruct (IH s) as (sep & Hs & Hl & Hsp).
    { unfold leadingWhitespace. lia. }
    exists (String c sep). simpl. rewrite <- Hs, Hl, Hc, Hsp. auto.
Qed.

Lemma spacesThenContent_sound (k : nat) (s content : string) :
  (k <= leadingWhitespace s)%nat ->
  spacesThenContent k s = Some content ->
  exists sep, s = (sep ++ content)%string /\ isSeparator sep
              /\ dotPlus content = true.
Proof.
  induction k as [|k IH]; intros Hk H; cbn [spacesThenContent] in H;
    [discriminate|].
  destruct (dotPlus (Str.drop (S k) s)) eqn:Hd.
  - injection H as <-.
    destruct (drop_separators (S k) s Hk) as (sep & Hs & Hl & Hsp).
    exists sep. split; [exact Hs|]. split; [|exact Hd].
    split; [|exact Hsp]. destruct sep; [discriminate Hl | discriminate].
  - apply IH; [lia | exact H].
Qed.

Lemma spacesThenContent_complete (k : nat) (s : string) :
  forall j, (1 <= j <= k)%nat -> dotPlus (Str.drop j s) = true ->
            spacesThenContent k s <> None.
Proof.
  induction k as [|k IH]; intros j Hj Hd; [lia|]. cbn [spacesThenContent].
  destruct (dotPlus (Str.drop (S k) s)) eqn:Hk; [discriminate|].
  apply (IH j); [|exact Hd].
  destruct (Nat.eq_dec j (S k)) as [E | E]; [|lia].
  subst j. rewrite Hd in Hk. discriminate Hk.
Qed.

Lemma drop_append_length (a b : string) :
  Str.drop (String.length a) (a ++ b) = b.
Proof. induction a as [|c a IH]; simpl; [now destruct b | exact IH]. Qed.

Lemma leadingWhitespace_append (sep rest : string) :
  Str.forallb Str.isSpace sep = true ->
  (String.length sep <= leadingWhitespace (sep ++ rest))%nat.
Proof.
  unfold leadingWhitespace. induction sep as [|c sep IH]; simpl; intros H.
  - lia.
  - apply andb_prop in H. destruct H as [Hc H]. rewrite Hc. simpl.
    specialize (IH H). lia.
Qed.

Lemma repeatChar_length (c : ascii) (n : nat) :
  String.length (repeatChar c n) = n.
Proof. induction n as [|n IH]; simpl; [reflexivity | now rewrite IH]. Qed.

Lemma forallb_repeat_hash (n : nat) :
  Str.forallb isHash (repeatChar "#"%char n) = true.
Proof. induction n as [|n IH]; simpl; [reflexivity | exact IH]. Qed.

(** X6. The heading pattern: a line is recognised as a heading of level
    [level] exactly when it is made of [level] hashes, 1 to 6 of them, a
    non-empty run of whitespace, and a non-empty content without line
    terminator; the extracted content is then a suffix of the line that
    follows such a run. *)
Theorem headerMatch_spec (line : string) (level : nat) :
  ((exists content, headerMatch line = Some (level, content))
   <-> headingShape line level)
  /\ (forall content,
        headerMatch line = Some (level, content) ->
        exists sep,
          line = (repeatChar "#"%char level ++ sep ++ content)%string
          /\ isSeparator sep /\ dotPlus content = true).
Proof.
  assert (Hsound : forall content,
             headerMatch line = Some (level, content) ->
             (1 <= level <= 6)%nat
             /\ exists sep,
                  line = (repeatChar "#"%char level ++ sep ++ content)%string
                  /\ isSeparator sep /\ dotPlus content = true).
  { intros content H. unfold headerMatch in H.
    set (n := String.length (Str.takeWhile isHash line)) in *.
    destruct ((1 <=? n)%nat && (n <=? 6)%nat) eqn:Hn; [|discriminate].
    apply andb_prop in Hn. destruct Hn as [H1 H6].
    apply Nat.leb_le in H1, H6.
    unfold matchSpacesContent in H.
    destruct (spacesThenContent _ _) as [c|] eqn:Hs; [|discriminate].
    injection H as Hl Hc. subst c.
    apply spacesThenContent_sound in Hs; [|lia].
    destruct Hs as (sep & Hs & Hsep & Hd).
    split; [lia|]. exists sep. split; [|auto].
    rewrite <- Hs, <- Hl. unfold n. rewrite <- takeWhile_isHash, drop_takeWhile.
    now rewrite takeWhile_dropWhile. }
  split; [split|].
  - intros (content & H). destruct (Hsound content H) as [Hl (sep & Hs)].
    split; [exact Hl|]. now exists sep, content.
  - intros (Hl & sep & content & Hline & (Hne & Hsp) & Hd).
    assert (Ht : Str.takeWhile isHash line = repeatChar "#"%char level).
    { rewrite Hline. apply takeWhile_append; [apply forallb_repeat_hash|].
      destruct sep as [|c sep]; [congruence|]. simpl in *.
      apply andb_prop in Hsp. destruct Hsp as [Hc _].
      unfold isHash. destruct (Ascii.eqb_spec c "#"%char) as [E | E]; [|reflexivity].
      subst c. discriminate Hc. }
    unfold headerMatch. rewrite Ht, repeatChar_length.
    replace ((1 <=? level)%nat && (level <=? 6)%nat) with true
      by (symmetry; apply andb_true_intro; split; apply Nat.leb_le; lia).
    assert (Hdrop : Str.drop level line = (sep ++ content)%string).
    { rewrite Hline. rewrite <- (repeatChar_length "#"%char level) at 1.
      apply drop_append_length. }
    rewrite Hdrop. unfold matchSpacesContent.
    destruct (spacesThenContent _ _) as [c|] eqn:Hs; [now exists c|].
    exfalso. revert Hs.
    apply (spacesThenContent_complete _ _ (String.length sep)).
    + split; [destruct sep; [congruence | simpl; lia]|].
      now apply leadingWhitespace_append.
    + now rewrite drop_append_length.
  - intros content H. now destruct (Hsound content H).
Qed.

Lemma isHash_class (c : ascii) :
  isHash c = true -> Str.isDigit c = false /\ isBullet c = false.
Proof.
  unfold isHash. intros H. apply Ascii.eqb_eq in H. subst c. split; reflexivity.
Qed.

Lemma isBullet_class (c : ascii) :
  isBullet c = true -> Str.isDigit c = false.
Proof.
  unfold isBullet. intros H. apply orb_prop in H.
  destruct H as [H | H]; apply Ascii.eqb_eq in H; subst c; reflexivity.
Qed.

(** X7. The three block patterns are mutually exclusive: no line is at once
    a heading, an ordered list item and an unordered list item, or two of
    them, so the order in which the driver tries them does not matter. *)
Theorem block_patterns_exclusive (line : string) :
  (matchCount line <= 1)%nat.
Proof.
  unfold matchCount. destruct line as [|c r]; [simpl; lia|].
  destruct (isHash c) eqn:Hh.
  - destruct (isHash_class c Hh) as [Hd Hb].
    assert (Ho : orderedListMatch (String c r) = None)
      by (unfold orderedListMatch; simpl; now rewrite Hd).
    assert (Hu : unorderedListMatch (String c r) = None)
      by (unfold unorderedListMatch; now rewrite Hb).
    rewrite Ho, Hu. destruct (headerMatch (String c r)); simpl; lia.
  - assert (Hm : headerMatch (String c r) = None)
      by (unfold headerMatch; simpl; now rewrite Hh).
    rewrite Hm. simpl matched at 1.
    destruct (isBullet c) eqn:Hb.
    + assert (Ho : orderedListMatch (String c r) = None)
        by (unfold orderedListMatch; simpl; now rewrite (isBullet_class c Hb)).
      rewrite Ho. destruct (unorderedListMatch (String c r)); simpl; lia.
    + assert (Hu : unorderedListMatch (String c r) = None)
        by (unfold unorderedListMatch; now rewrite Hb).
      rewrite Hu. destruct (orderedListMatch (String c r)); simpl; lia.
Qed.

(** ** The forced word splitter: widths, count and styles of the fragments *)

Section SplitterWidths.

Variable measure : string -> FontStyle -> Q -> string -> Q.
Variables (d1 : Doc) (st : TextStyle) (maxW : Q).

Lemma splitStep_width_inv (word rest : string) (c : ascii)
    (acc : SplitState) (bs : list Block) :
  SplitWidthInv measure d1 maxW word (String c rest) acc bs ->
  exists bs1,
    SplitWidthInv measure d1 maxW word rest (splitStep measure d1 st maxW acc c) bs1.
Proof.
  intros [Ht Hw Hb Hp]. unfold splitStep.
  destruct (Num.gtb _ _) eqn:Hgt.
  - destruct (2 <=? String.length (currentPart acc))%nat.
    + exists (bs ++ [(currentPart acc, true)]). constructor; simpl.
      * rewrite !map_app, Ht. reflexivity.
      * rewrite joinBlocks_snoc, append_assoc. exact Hw.
      * apply Forall_app. split; [exact Hb | constructor; [exact Hp | constructor]].
      * intros H. simpl in H. lia.
    + destruct (0 <? String.length (currentPart acc))%nat eqn:H0.
      * exists (bs ++ [(currentPart acc, false)]). constructor; simpl.
        -- rewrite !map_app, Ht. reflexivity.
        -- rewrite joinBlocks_snoc, append_assoc. exact Hw.
        -- apply Forall_app. split; [exact Hb | constructor; [exact Hp | constructor]].
        -- intros H. simpl in H. lia.
      * exists (bs ++ [(String c EmptyString, false)]).
        apply length_zero_empty in H0. constructor; simpl.
        -- rewrite !map_app, Ht. reflexivity.
        -- rewrite joinBlocks_snoc, append_assoc. rewrite H0 in Hw. exact Hw.
        -- apply Forall_app. split; [exact Hb|].
           constructor; [|constructor]. intros H. simpl in H. lia.
        -- intros H. simpl in H. lia.
  - exists bs. constructor; simpl; try assumption.
    + rewrite snoc_append. exact Hw.
    + intros _. unfold Num.gtb in Hgt.
      apply negb_false_iff, Qle_bool_iff in Hgt. exact Hgt.
Qed.

Lemma splitLoop_width_inv (word rest : string) :
  forall (acc : SplitState) (bs : list Block),
    SplitWidthInv measure d1 maxW word rest acc bs ->
    exists bs1,
      SplitWidthInv measure d1 maxW word EmptyString
                    (splitLoop measure d1 st maxW rest acc) bs1.
Proof.
  induction rest as [|c rest IH]; intros acc bs Hinv; simpl.
  - now exists bs.
  - destruct (splitStep_width_inv _ _ _ _ _ Hinv) as [bs1 H1]. exact (IH _ _ H1).
Qed.

End SplitterWidths.

(** X8. Width of the forced fragments: when the word does not fit, the
    fragments are the blocks of a partition of the word (with the appended
    hyphens), and every block of two or more characters measures, in the
    style of the word and without its hyphen, at most 95% of [maxWidth].
    Only a block of a single character can be wider. *)
Theorem splitWordIfNeeded_long_blocks
    (measure : string -> FontStyle -> Q -> string -> Q)
    (word : string) (st : TextStyle) (d : Doc) (maxW : Q)
    (Hwide : maxW < getTextWidth measure
                      (applyStyle d st (JsPDF.getFontSize d) (JsPDF.getFontName d))
                      word) :
  exists bs : list Block,
    joinBlocks bs = word
    /\ map text (fst (splitWordIfNeeded measure word st d maxW)) = map blockText bs
    /\ Forall (fun b =>
                 (2 <= String.length (fst b))%nat ->
                 getTextWidth measure
                   (applyStyle d st (JsPDF.getFontSize d) (JsPDF.getFontName d))
                   (fst b)
                 <= maxW * (95 # 100)) bs.
Proof.
  unfold splitWordIfNeeded.
  set (d1 := applyStyle d st (JsPDF.getFontSize d) (JsPDF.getFontName d)) in *.
  assert (Hleb : Num.leb (getTextWidth measure d1 word) maxW = false).
  { unfold Num.leb. destruct (Qle_bool _ _) eqn:E; [|reflexivity].
    apply Qle_bool_iff in E. lra. }
  rewrite Hleb.
  assert (H0 : SplitWidthInv measure d1 maxW word word (mkSplit [] EmptyString) []).
  { constructor; simpl; try constructor; try reflexivity.
    intros H. simpl in H. lia. }
  destruct (splitLoop_width_inv measure d1 st maxW word word _ _ H0)
    as [bs [Ht Hw Hb Hp]].
  set (acc := splitLoop measure d1 st maxW word (mkSplit [] EmptyString)) in *.
  rewrite append_empty_r in Hw.
  destruct (0 <? String.length (currentPart acc))%nat eqn:Hc; simpl.
  - exists (bs ++ [(currentPart acc, false)]).
    split; [now rewrite joinBlocks_snoc|].
    split; [rewrite !map_app, Ht; reflexivity|].
    apply Forall_app. split; [exact Hb | constructor; [exact Hp | constructor]].
  - apply length_zero_empty in Hc. rewrite Hc, append_empty_r in Hw.
    exists bs. auto.
Qed.

Lemma splitWordIfNeeded_long_blocks_witness :
  (5 # 2) < getTextWidth monoMeasure
              (applyStyle (plainDoc 2) initialStyle (JsPDF.getFontSize (plainDoc 2))
                          (JsPDF.getFontName (plainDoc 2)))
              "abcdef"
  /\ exists bs : list Block,
       joinBlocks bs = "abcdef"
       /\ map text (fst (splitWordIfNeeded monoMeasure "abcdef" initialStyle
                                           (plainDoc 2) (5 # 2)))
          = map blockText bs
       /\ Forall (fun b =>
                    (2 <= String.length (fst b))%nat ->
                    getTextWidth monoMeasure
                      (applyStyle (plainDoc 2) initialStyle
                                  (JsPDF.getFontSize (plainDoc 2))
                                  (JsPDF.getFontName (plainDoc 2)))
                      (fst b)
                    <= (5 # 2) * (95 # 100)) bs.
Proof.
  split; [reflexivity|].
  apply (splitWordIfNeeded_long_blocks monoMeasure "abcdef" initialStyle
                                       (plainDoc 2) (5 # 2)).
  reflexivity.
Defined.

Lemma length_append (a b : string) :
  String.length (a ++ b) = (String.length a + String.length b)%nat.
Proof. induction a as [|c a IH]; simpl; [reflexivity | now rewrite IH]. Qed.

Lemma joinBlocks_cons (b : Block) (bs : list Block) :
  joinBlocks (b :: bs) = (fst b ++ joinBlocks bs)%string.
Proof.
  change (b :: bs) with ([b] ++ bs). unfold joinBlocks.
  rewrite map_app, concat_app. reflexivity.
Qed.

Lemma joinBlocks_length (bs : list Block) :
  Forall (fun b => fst b <> EmptyString) bs ->
  (List.length bs <= String.length (joinBlocks bs))%nat.
Proof.
  induction bs as [|b bs IH]; intros H; [simpl; lia|].
  apply Forall_cons_iff in H. destruct H as [Hb H].
  rewrite joinBlocks_cons, length_append. simpl. specialize (IH H).
  destruct (fst b); [congruence | simpl; lia].
Qed.

(** X9. The forced splitter returns at most one fragment per character of
    the word (one fragment for the empty word at most), and every fragment
    carries the style of the word. *)
Theorem splitWordIfNeeded_count_and_style
    (measure : string -> FontStyle -> Q -> string -> Q)
    (word : string) (st : TextStyle) (d : Doc) (maxW : Q) :
  (List.length (fst (splitWordIfNeeded measure word st d maxW))
   <= Nat.max 1 (String.length word))%nat
  /\ Forall (fun p => style p = st) (fst (splitWordIfNeeded measure word st d maxW)).
Proof.
  destruct (splitWordIfNeeded_blocks measure d st maxW word)
    as (bs & Hj & Ht & _ & Hs & Hne).
  split; [|exact Hs].
  destruct word as [|c w].
  - unfold splitWordIfNeeded. destruct (Num.leb _ _); simpl; lia.
  - destruct Hne as [_ Hall]; [discriminate|].
    rewrite <- (length_map text), Ht, length_map.
    pose proof (joinBlocks_length bs Hall) as Hl. rewrite Hj in Hl. lia.
Qed.

(** ** The line renderer draws every segment once, at the line's ordinate *)

Lemma sameCanvas_refl (d : Doc) : sameCanvas d d.
Proof. split; reflexivity. Qed.

Lemma sameCanvas_trans (d d1 d2 : Doc) :
  sameCanvas d d1 -> sameCanvas d1 d2 -> sameCanvas d d2.
Proof. intros [H1 H2] [H3 H4]. split; congruence. Qed.

Lemma applyStyle_canvas (d : Doc) (s : TextStyle) (b : Q) (f : string) :
  sameCanvas d (applyStyle d s b f).
Proof. unfold sameCanvas, applyStyle. now destruct (heading s). Qed.

Lemma drawsAt_nil (y : Q) (d d1 : Doc) : sameCanvas d d1 -> drawsAt y [] d d1.
Proof.
  intros [Hc Hp]. split; [exact Hp|]. exists []. now rewrite app_nil_r.
Qed.

Lemma drawsAt_cons (y x : Q) (s : TextSegment) (segs : list TextSegment)
    (d d1 d2 : Doc) :
  sameCanvas d d1 ->
  drawsAt y segs (JsPDF.drawText (text s) x y d1) d2 ->
  drawsAt y (s :: segs) d d2.
Proof.
  intros [Hc Hp] [Hp2 (new & Hn & Hm)]. split.
  - simpl in Hp2. congruence.
  - simpl in Hn. rewrite Hc, <- app_assoc in Hn. simpl in Hn.
    eexists. split; [exact Hn|]. simpl. now rewrite Hm.
Qed.

Lemma drawsAt_after (y : Q) (segs : list TextSegment) (d d1 d2 : Doc) :
  sameCanvas d d1 -> drawsAt y segs d1 d2 -> drawsAt y segs d d2.
Proof.
  intros [Hc Hp] [Hp2 (new & Hn & Hm)]. split; [congruence|].
  exists new. split; [congruence | exact Hm].
Qed.

Lemma map_constant {A B C : Type} (g : A -> C) (y : C) (l : list A) :
  forall l1 : list B, map g l = map (fun _ => y) l1 -> Forall (fun c => g c = y) l.
Proof.
  induction l as [|c l IH]; intros l1 Hm; [constructor|].
  destruct l1 as [|s l1]; [discriminate|].
  injection Hm as Hc Hm. constructor; [exact Hc | exact (IH l1 Hm)].
Qed.

Section Drawing.

Variable measure : string -> FontStyle -> Q -> string -> Q.

Lemma drawUnjustified_draws (y : Q) (segs : list TextSegment) :
  forall (cx : Q) (d : Doc),
    drawsAt y segs d (snd (fold_left (drawUnjustified measure y) segs (cx, d))).
Proof.
  induction segs as [|s segs IH]; intros cx d; simpl.
  - apply drawsAt_nil, sameCanvas_refl.
  - eapply drawsAt_cons; [apply applyStyle_canvas | apply IH].
Qed.

Lemma addTextWidth_canvas (segs : list TextSegment) :
  forall (acc : Q) (d : Doc),
    sameCanvas d (snd (fold_left (addTextWidth measure) segs (acc, d))).
Proof.
  induction segs as [|s segs IH]; intros acc d; simpl.
  - apply sameCanvas_refl.
  - eapply sameCanvas_trans; [apply applyStyle_canvas | apply IH].
Qed.

Lemma drawJustified_draws (y extra : Q) (len : nat) (segs : list TextSegment) :
  forall (index : nat) (x : Q) (d : Doc),
    drawsAt y segs d (snd (drawJustified measure y extra len segs index x d)).
Proof.
  induction segs as [|s segs IH]; intros index x d; simpl.
  - apply drawsAt_nil, sameCanvas_refl.
  - eapply drawsAt_cons; [apply applyStyle_canvas | apply IH].
Qed.

Lemma addStyledWidth_canvas (o : PDFMarkdownOptions) (segs : list TextSegment) :
  forall (acc : Q) (d : Doc),
    sameCanvas d (snd (fold_left (addStyledWidth measure o) segs (acc, d))).
Proof.
  induction segs as [|s segs IH]; intros acc d; simpl.
  - apply sameCanvas_refl.
  - eapply sameCanvas_trans; [apply applyStyle_canvas | apply IH].
Qed.

Lemma drawStyled_draws (o : PDFMarkdownOptions) (y : Q) (segs : list TextSegment) :
  forall (cx : Q) (d : Doc),
    drawsAt y segs d (snd (fold_left (drawStyled measure o y) segs (cx, d))).
Proof.
  induction segs as [|s segs IH]; intros cx d; simpl.
  - apply drawsAt_nil, sameCanvas_refl.
  - eapply drawsAt_cons; [apply applyStyle_canvas | apply IH].
Qed.

Lemma renderJustifiedLine_draws (d : Doc) (segs : list TextSegment)
    (x y maxW : Q) (isLastLine : bool) :
  drawsAt y segs d (renderJustifiedLine measure d segs x y maxW isLastLine).
Proof.
  unfold renderJustifiedLine.
  destruct (isLastLine || (List.length segs <=? 1)%nat).
  - apply drawUnjustified_draws.
  - pose proof (addTextWidth_canvas segs 0 d) as Hc.
    destruct (fold_left (addTextWidth measure) segs (0, d)) as [total d1].
    simpl in Hc. eapply drawsAt_after; [exact Hc | apply drawJustified_draws].
Qed.

Lemma placeLine_draws (o : PDFMarkdownOptions) (p : Placement) (segs : Line)
    (y : Q) (isLast : bool) (d : Doc) :
  drawsAt y segs d (placeLine measure o p segs y isLast d).
Proof.
  unfold placeLine.
  assert (Hstyled : forall x0 : Q -> Q,
             drawsAt y segs d
               (let '(totalWidth, d1) :=
                  fold_left (addStyledWidth measure o) segs (0, d) in
                snd (fold_left (drawStyled measure o y) segs (x0 totalWidth, d1)))).
  { intros x0. pose proof (addStyledWidth_canvas o segs 0 d) as Hc.
    destruct (fold_left (addStyledWidth measure o) segs (0, d)) as [total d1].
    simpl in Hc. eapply drawsAt_after; [exact Hc | apply drawStyled_draws]. }
  destruct (align o) as [[] |].
  - apply (Hstyled (fun _ => startX p)).
  - apply (Hstyled (fun t => centerX p t)).
  - apply (Hstyled (fun t => rightX p t)).
  - apply renderJustifiedLine_draws.
  - apply (Hstyled (fun _ => startX p)).
Qed.

(** X10. Rendering one line, under any alignment and from any document
    state, appends to the drawing log exactly one call per segment of the
    line, in the order of the segments, each with the text of its segment and
    all at the ordinate of the line; the page is left as it is. *)
Theorem placeLine_draws_each_segment_once
    (o : PDFMarkdownOptions) (p : Placement) (segs : Line)
    (y : Q) (isLast : bool) (d : Doc) :
  pageHeight (placeLine measure o p segs y isLast d) = pageHeight d
  /\ exists new,
       calls (placeLine measure o p segs y isLast d) = calls d ++ new
       /\ map dc_text new = map text segs
       /\ Forall (fun c => dc_y c = y) new
       /\ List.length new = List.length segs.
Proof.
  destruct (placeLine_draws o p segs y isLast d) as [Hp (new & Hn & Hm)].
  split; [exact Hp|]. exists new. split; [exact Hn|].
  assert (Ht : map dc_text new = map text segs).
  { apply (f_equal (map fst)) in Hm. rewrite !map_map in Hm. exact Hm. }
  split; [exact Ht|]. split.
  - apply (f_equal (map snd)) in Hm. rewrite !map_map in Hm. simpl in Hm.
    exact (map_constant _ _ _ _ Hm).
  - rewrite <- (length_map dc_text new), Ht. apply length_map.
Qed.

End Drawing.

(** ** Left, centred and right alignment *)

Section Alignment.

Variable measure : string -> FontStyle -> Q -> string -> Q.

Lemma addStyledWidth_total (o : PDFMarkdownOptions) (segs : list TextSegment) :
  forall (acc : Q) (d : Doc),
    noHeading segs = true ->
    fst (fold_left (addStyledWidth measure o) segs (acc, d))
    = fold_left (fun a s => a + naturalWidth measure (font o) (fontSize o) s)
                segs acc.
Proof.
  induction segs as [|s segs IH]; intros acc d Hnh; simpl; [reflexivity|].
  apply noHeading_cons in Hnh. destruct Hnh as [Hs Hnh].
  rewrite (applyStyle_noHeading _ _ _ _ Hs). now rewrite (IH _ _ Hnh).
Qed.

Lemma drawStyled_calls (o : PDFMarkdownOptions) (y : Q) (segs : list TextSegment) :
  forall (x : Q) (d : Doc),
    noHeading segs = true ->
    calls (snd (fold_left (drawStyled measure o y) segs (x, d)))
    = calls d ++ alignedCalls measure (font o) (fontSize o) y segs x.
Proof.
  induction segs as [|s segs IH]; intros x d Hnh; simpl.
  - now rewrite app_nil_r.
  - apply noHeading_cons in Hnh. destruct Hnh as [Hs Hnh].
    rewrite (applyStyle_noHeading _ _ _ _ Hs).
    rewrite (IH _ _ Hnh). simpl. now rewrite <- app_assoc.
Qed.

Lemma placeLine_aligned_calls
    (o : PDFMarkdownOptions) (p : Placement) (segs : Line)
    (y : Q) (isLast : bool) (d : Doc) :
  isJustify (align o) = false ->
  noHeading segs = true ->
  calls (placeLine measure o p segs y isLast d)
  = calls d
    ++ alignedCalls measure (font o) (fontSize o) y segs
         (lineStart o p (sumWidths measure (font o) (fontSize o) segs)).
Proof.
  intros Halign Hnh. unfold placeLine, lineStart, sumWidths.
  pose proof (addStyledWidth_total o segs 0 d Hnh) as Ht.
  pose proof (addStyledWidth_fold measure o segs 0 d) as Hc.
  destruct (fold_left (addStyledWidth measure o) segs (0, d)) as [total d1].
  simpl in Ht, Hc. subst total.
  destruct (align o) as [[] |]; try discriminate Halign;
    rewrite (drawStyled_calls _ _ _ _ _ Hnh), Hc; reflexivity.
Qed.

(** X11. Left, centred and right placement: under any alignment but
    'justify', a line of segments without heading level is drawn in the font
    and at the size of the options, each segment in the weight of its own
    style, whatever font state the document was in; the first segment starts
    at the left start of the block, at the centred start or at the
    right-aligned start computed from the total width of the line, and each
    further segment starts where the previous one ends. *)
Theorem placeLine_aligned
    (o : PDFMarkdownOptions) (p : Placement) (segs : Line)
    (y : Q) (isLast : bool) (d : Doc)
    (Halign : isJustify (align o) = false)
    (Hstyles : noHeading segs = true) :
  calls (placeLine measure o p segs y isLast d)
  = calls d
    ++ alignedCalls measure (font o) (fontSize o) y segs
         (lineStart o p (sumWidths measure (font o) (fontSize o) segs)).
Proof. now apply placeLine_aligned_calls. Qed.

Lemma alignedCalls_app (f : string) (sz y : Q) (a b : list TextSegment) :
  forall x : Q,
    alignedCalls measure f sz y (a ++ b) x
    = alignedCalls measure f sz y a x
      ++ alignedCalls measure f sz y b
           (fold_left (fun c s => c + naturalWidth measure f sz s) a x).
Proof.
  induction a as [|s a IH]; intros x; simpl; [reflexivity|].
  now rewrite IH.
Qed.

Lemma fold_widths_shift (f : string) (sz : Q) (l : list TextSegment) :
  forall x : Q,
    fold_left (fun c s => c + naturalWidth measure f sz s) l x
    == x + fold_left (fun c s => c + naturalWidth measure f sz s) l 0.
Proof.
  induction l as [|s l IH]; intros x; simpl; [lra|].
  rewrite (IH (x + naturalWidth measure f sz s)).
  rewrite (IH (0 + naturalWidth measure f sz s)). lra.
Qed.

(** X12. A right-aligned line ends at the right edge: in a paragraph,
    heading or list block, the last segment of a line without heading level
    drawn under 'right' ends, at its natural width, exactly at
    [x + maxWidth]. *)
Theorem right_aligned_line_reaches_edge
    (o : PDFMarkdownOptions) (p : Placement) (x : Q)
    (pre : list TextSegment) (s : TextSegment)
    (y : Q) (isLast : bool) (d : Doc)
    (Halign : align o = Some Align.right)
    (Hblock : (exists bi, p = flowPlacement o x bi)
              \/ (exists li, p = listPlacement o x li))
    (Hstyles : noHeading (pre ++ [s]) = true) :
  exists front c,
    calls (placeLine measure o p (pre ++ [s]) y isLast d) = calls d ++ front ++ [c]
    /\ dc_text c = text s
    /\ dc_x c + naturalWidth measure (font o) (fontSize o) s == x + maxWidth o.
Proof.
  assert (Hright : forall t, rightX p t = x + maxWidth o - t)
    by (destruct Hblock as [[b ->] | [l ->]]; reflexivity).
  rewrite placeLine_aligned_calls by (try exact Hstyles; now rewrite Halign).
  unfold lineStart. rewrite Halign, Hright, alignedCalls_app. simpl.
  eexists. eexists. split; [reflexivity|]. split; [reflexivity|]. simpl.
  unfold sumWidths. rewrite fold_left_app. simpl.
  rewrite fold_widths_shift. lra.
Qed.

End Alignment.

Lemma placeLine_aligned_witness :
  isJustify (align (exampleOptions (Some Align.center) 100)) = false
  /\ noHeading threeSegments = true
  /\ calls (placeLine monoMeasure (exampleOptions (Some Align.center) 100)
                      (flowPlacement (exampleOptions (Some Align.center) 100) 0 0)
                      threeSegments 10 true (plainDoc 12))
     = calls (plainDoc 12)
       ++ alignedCalls monoMeasure "Helvetica" 12 10 threeSegments
            (lineStart (exampleOptions (Some Align.center) 100)
               (flowPlacement (exampleOptions (Some Align.center) 100) 0 0)
               (sumWidths monoMeasure "Helvetica" 12 threeSegments)).
Proof.
  split; [reflexivity|]. split; [reflexivity|].
  apply (placeLine_aligned monoMeasure (exampleOptions (Some Align.center) 100)
           (flowPlacement (exampleOptions (Some Align.center) 100) 0 0)
           threeSegments 10 true (plainDoc 12)); reflexivity.
Defined.

Lemma right_aligned_line_reaches_edge_witness :
  align (exampleOptions (Some Align.right) 100) = Some Align.right
  /\ noHeading ([plain "a"; plain " "] ++ [plain "b"]) = true
  /\ exists front c,
       calls (placeLine monoMeasure (exampleOptions (Some Align.right) 100)
                        (flowPlacement (exampleOptions (Some Align.right) 100) 5 0)
                        ([plain "a"; plain " "] ++ [plain "b"]) 10 true
                        (plainDoc 12))
       = calls (plainDoc 12) ++ front ++ [c]
       /\ dc_text c = text (plain "b")
       /\ dc_x c + naturalWidth monoMeasure
                     (font (exampleOptions (Some Align.right) 100))
                     (fontSize (exampleOptions (Some Align.right) 100)) (plain "b")
          == 5 + maxWidth (exampleOptions (Some Align.right) 100).
Proof.
  split; [reflexivity|]. split; [reflexivity|].
  apply (right_aligned_line_reaches_edge monoMeasure
           (exampleOptions (Some Align.right) 100)
           (flowPlacement (exampleOptions (Some Align.right) 100) 5 0) 5
           [plain "a"; plain " "] (plain "b") 10 true (plainDoc 12)).
  - reflexivity.
  - left. exists 0. reflexivity.
  - reflexivity.
Defined.

(** ** A justified line fills the available width *)

Section Justification.

Variable measure : string -> FontStyle -> Q -> string -> Q.
Variables (f : string) (sz y extra : Q) (len : nat).

Lemma justifiedCalls_app (a b : list TextSegment) :
  forall (index : nat) (x : Q),
    justifiedCalls measure f sz y extra len (a ++ b) index x
    = justifiedCalls measure f sz y extra len a index x
      ++ justifiedCalls measure f sz y extra len b (index + List.length a)
           (justifiedCursor measure f sz extra len a index x).
Proof.
  induction a as [|s a IH]; intros index x; simpl.
  - now rewrite Nat.add_0_r.
  - rewrite IH. now rewrite Nat.add_succ_r.
Qed.

(** Before the last segment every gap marker receives the extra space. *)
Lemma justifiedCursor_inner (a : list TextSegment) :
  forall (index : nat) (x : Q),
    (index + List.length a < len)%nat ->
    justifiedCursor measure f sz extra len a index x
    == x + fold_left (fun c s => c + naturalWidth measure f sz s) a 0
       + Num.ofNat (List.length (filter isGap a)) * extra.
Proof.
  induction a as [|s a IH]; intros index x Hlen; simpl.
  - change (Num.ofNat 0) with 0. lra.
  - simpl in Hlen.
    assert (Hinner : (Z.of_nat index <? Z.of_nat len - 1)%Z = true)
      by (apply Z.ltb_lt; lia).
    rewrite Hinner, andb_true_r.
    rewrite IH by lia.
    rewrite (fold_widths_shift measure f sz a (0 + naturalWidth measure f sz s)).
    destruct (isGap s); simpl List.length.
    + rewrite ofNat_succ. lra.
    + lra.
Qed.

End Justification.

Lemma ofNat_positive (n : nat) : (0 < n)%nat -> ~ Num.ofNat n == 0.
Proof.
  intros Hn H. unfold Num.ofNat, Qeq in H. simpl in H. lia.
Qed.

(** X13. A justified line fills the available width: on a line that is not
    the last of its block, made of segments without heading level, ending
    with a word and holding at least one gap marker, whose total natural
    width does not exceed the available width, the last segment ends exactly
    at [x + availableWidth]. *)
Theorem justified_line_fills_width
    (measure : string -> FontStyle -> Q -> string -> Q)
    (d : Doc) (pre : list TextSegment) (s : TextSegment)
    (x y availableWidth : Q)
    (Hstyles : noHeading (pre ++ [s]) = true)
    (Hword : isGap s = false)
    (Hgaps : (1 <= List.length (filter isGap pre))%nat)
    (Hfits : sumWidths measure (docFont d) (docFontSize d) (pre ++ [s])
             <= availableWidth) :
  exists front c,
    calls (renderJustifiedLine measure d (pre ++ [s]) x y availableWidth false)
    = calls d ++ front ++ [c]
    /\ dc_text c = text s
    /\ dc_x c + naturalWidth measure (docFont d) (docFontSize d) s
       == x + availableWidth.
Proof.
  assert (Hpre : (1 <= List.length pre)%nat).
  { destruct pre; [simpl in Hgaps; lia | simpl; lia]. }
  unfold renderJustifiedLine. simpl orb.
  replace (List.length (pre ++ [s]) <=? 1)%nat with false
    by (symmetry; apply Nat.leb_gt; rewrite length_app; simpl; lia).
  destruct (addTextWidth_fold measure (pre ++ [s]) 0 d Hstyles)
    as (Ht & Hf & Hz & Hc).
  destruct (fold_left (addTextWidth measure) (pre ++ [s]) (0, d)) as [total d1].
  simpl in Ht, Hf, Hz, Hc. subst total.
  rewrite (drawJustified_calls _ _ _ _ _ _ _ _ Hstyles), Hf, Hz, Hc.
  rewrite justifiedCalls_app. simpl.
  eexists. eexists. split; [reflexivity|]. split; [reflexivity|]. simpl.
  rewrite justifiedCursor_inner by (rewrite length_app; simpl; lia).
  rewrite filter_app. simpl. rewrite Hword, app_nil_r.
  set (n := List.length (filter isGap pre)) in *.
  replace (0 <? n)%nat with true by (symmetry; apply Nat.ltb_lt; lia).
  unfold sumWidths in Hfits. rewrite fold_left_app in *. simpl in *.
  set (w := naturalWidth measure (docFont d) (docFontSize d)) in *.
  set (total := fold_left (fun c s0 => c + w s0) pre 0) in *.
  assert (Hmax : Num.max 0 (availableWidth - (total + w s))
                 = availableWidth - (total + w s)).
  { unfold Num.max.
    replace (Qle_bool 0 (availableWidth - (total + w s))) with true; [reflexivity|].
    symmetry. apply Qle_bool_iff. lra. }
  rewrite Hmax.
  pose proof (Qmult_div_r (availableWidth - (total + w s)) (Num.ofNat n)
                          (ofNat_positive n Hgaps)) as Hdiv.
  lra.
Qed.

Lemma justified_line_fills_width_witness :
  noHeading ([plain "a"; plain " "] ++ [plain "b"]) = true
  /\ isGap (plain "b") = false
  /\ (1 <= List.length (filter isGap [plain "a"; plain " "]))%nat
  /\ sumWidths monoMeasure (docFont (plainDoc 2)) (docFontSize (plainDoc 2))
               ([plain "a"; plain " "] ++ [plain "b"]) <= 10
  /\ exists front c,
       calls (renderJustifiedLine monoMeasure (plainDoc 2)
                ([plain "a"; plain " "] ++ [plain "b"]) 0 0 10 false)
       = calls (plainDoc 2) ++ front ++ [c]
       /\ dc_text c = text (plain "b")
       /\ dc_x c + naturalWidth monoMeasure (docFont (plainDoc 2))
                                (docFontSize (plainDoc 2)) (plain "b")
          == 0 + 10.
Proof.
  assert (Hfits : sumWidths monoMeasure (docFont (plainDoc 2))
                            (docFontSize (plainDoc 2))
                            ([plain "a"; plain " "] ++ [plain "b"]) <= 10)
    by (vm_compute; intros H; discriminate H).
  split; [reflexivity|]. split; [reflexivity|]. split; [simpl; lia|].
  split; [exact Hfits|].
  apply (justified_line_fills_width monoMeasure (plainDoc 2)
           [plain "a"; plain " "] (plain "b") 0 0 10);
    [reflexivity | reflexivity | simpl; lia | exact Hfits].
Defined.

(** ** The line breaker only measures *)

Section BreakerCanvas.

Variable measure : string -> FontStyle -> Q -> string -> Q.

Lemma splitWordIfNeeded_canvas (word : string) (st : TextStyle) (d : Doc) (maxW : Q) :
  sameCanvas d (snd (splitWordIfNeeded measure word st d maxW)).
Proof. rewrite splitWordIfNeeded_doc. apply applyStyle_canvas. Qed.

Lemma placeWord_canvas (f : string) (W sp : Q) (st : TextStyle)
    (b : Breaker) (d : Doc) (word : string) :
  sameCanvas d (snd (placeWord measure f W sp st (b, d) word)).
Proof.
  unfold placeWord. destruct (negb (Str.nonEmpty word)); [apply sameCanvas_refl|].
  destruct (Num.leb _ W); [apply applyStyle_canvas|].
  destruct (Num.leb _ W); [apply applyStyle_canvas|].
  pose proof (splitWordIfNeeded_canvas word st
                (applyStyle d st (JsPDF.getFontSize d) f) W) as Hc.
  destruct (splitWordIfNeeded measure word st _ W) as [parts d2].
  simpl in *. eapply sameCanvas_trans; [apply applyStyle_canvas | exact Hc].
Qed.

Lemma placeWords_canvas (f : string) (W sp : Q) (st : TextStyle)
    (words : list string) :
  forall acc : Breaker * Doc,
    sameCanvas (snd acc) (snd (fold_left (placeWord measure f W sp st) words acc)).
Proof.
  induction words as [|w words IH]; intros [b d]; cbn [fold_left].
  - apply sameCanvas_refl.
  - pose proof (placeWord_canvas f W sp st b d w) as H1.
    destruct (placeWord measure f W sp st (b, d) w) as [b1 d1].
    eapply sameCanvas_trans; [exact H1 | apply IH].
Qed.

Lemma placeSegments_canvas (f : string) (W sp : Q) (segments : list TextSegment) :
  forall acc : Breaker * Doc,
    sameCanvas (snd acc)
               (snd (fold_left (placeSegment measure f W sp) segments acc)).
Proof.
  induction segments as [|s segments IH]; intros acc; cbn [fold_left].
  - apply sameCanvas_refl.
  - eapply sameCanvas_trans; [|apply IH]. apply placeWords_canvas.
Qed.

Lemma measureLine_canvas (f : string) (d : Doc) (line : Line) :
  sameCanvas d (snd (measureLine measure f d line)).
Proof.
  unfold measureLine. generalize 0 at 1. revert d.
  induction line as [|s line IH]; intros d acc; simpl.
  - apply sameCanvas_refl.
  - eapply sameCanvas_trans; [apply applyStyle_canvas | apply IH].
Qed.

Lemma rebuild_canvas (W sp : Q) (line : Line) :
  forall acc : Rebuild * Doc,
    sameCanvas (snd acc) (snd (fold_left (rebuildStep measure W sp) line acc)).
Proof.
  induction line as [|s line IH]; intros [r d]; cbn [fold_left].
  - apply sameCanvas_refl.
  - eapply sameCanvas_trans; [|apply IH].
    unfold rebuildStep. destruct (String.eqb _ _).
    + destruct (Num.leb _ W); apply sameCanvas_refl.
    + pose proof (splitWordIfNeeded_canvas (text s) (style s) d
                    (W - currentWidth r)) as Hc.
      destruct (splitWordIfNeeded measure (text s) (style s) d _) as [parts d1].
      exact Hc.
Qed.

Lemma fitLine_canvas (f : string) (W sp : Q) (d : Doc) (line : Line) :
  sameCanvas d (snd (fitLine measure f W sp d line)).
Proof.
  unfold fitLine. pose proof (measureLine_canvas f d line) as Hm.
  destruct (measureLine measure f d line) as [lineWidth d1]. simpl in Hm.
  destruct (Num.gtb lineWidth W); [|exact Hm].
  pose proof (rebuild_canvas W sp line (mkRebuild [] 0, d1)) as Hr.
  destruct (fold_left _ line (mkRebuild [] 0, d1)) as [r d2]. simpl in *.
  eapply sameCanvas_trans; eassumption.
Qed.

Lemma fitLines_canvas (f : string) (W sp : Q) (ls : list Line) :
  forall d : Doc, sameCanvas d (snd (fitLines measure f W sp d ls)).
Proof.
  induction ls as [|l ls IH]; intros d; simpl; [apply sameCanvas_refl|].
  pose proof (fitLine_canvas f W sp d l) as Hl.
  destruct (fitLine measure f W sp d l) as [l1 d1]. simpl in Hl.
  specialize (IH d1). destruct (fitLines measure f W sp d1 ls) as [r d2].
  simpl in *. eapply sameCanvas_trans; eassumption.
Qed.

Lemma splitTextToLines_canvas (d : Doc) (segments : list TextSegment)
    (maxW bi : Q) (f : string) :
  sameCanvas d (snd (splitTextToLines measure d segments maxW bi f)).
Proof.
  unfold splitTextToLines.
  pose proof (placeSegments_canvas f (maxW - bi * JsPDF.getFontSize d)
                (getTextWidth measure d Str.space) segments
                (mkBreaker [[]] 0 0 [], d)) as H1.
  destruct (fold_left _ segments (mkBreaker [[]] 0 0 [], d)) as [b1 d1].
  simpl in H1. eapply sameCanvas_trans; [exact H1 | apply fitLines_canvas].
Qed.

(** X14. Line breaking only measures: for any segments, widths and document
    state, [splitTextToLines] issues no drawing call and leaves the page as
    it is; it changes nothing of the document but the current font. *)
Theorem splitTextToLines_never_draws (d : Doc) (segments : list TextSegment)
    (maxW bi : Q) (f : string) :
  calls (snd (splitTextToLines measure d segments maxW bi f)) = calls d
  /\ pageHeight (snd (splitTextToLines measure d segments maxW bi f))
     = pageHeight d.
Proof. apply splitTextToLines_canvas. Qed.

End BreakerCanvas.

(** ** Blank content gives no line *)

Lemma splitWsFrom_blank (s : string) :
  forall inSep : bool,
    Str.forallb Str.isSpace s = true ->
    Forall (fun w => w = EmptyString) (splitWsFrom s EmptyString inSep).
Proof.
  induction s as [|c s IH]; intros inSep H; simpl.
  - repeat constructor.
  - simpl in H. apply andb_prop in H. destruct H as [Hc H]. rewrite Hc.
    destruct inSep; [|constructor; [reflexivity|]]; now apply IH.
Qed.

Lemma placeWords_blank (measure : string -> FontStyle -> Q -> string -> Q)
    (f : string) (W sp : Q) (st : TextStyle) (words : list string) :
  forall acc : Breaker * Doc,
    Forall (fun w => w = EmptyString) words ->
    fold_left (placeWord measure f W sp st) words acc = acc.
Proof.
  induction words as [|w words IH]; intros [b d] H; simpl; [reflexivity|].
  apply Forall_cons_iff in H. destruct H as [-> H]. simpl. now apply IH.
Qed.

(** X15. Blank content gives no line: when the text of every segment is
    made of whitespace only (or there is no segment), [splitTextToLines]
    returns the empty list of lines and the document untouched. *)
Theorem splitTextToLines_blank
    (measure : string -> FontStyle -> Q -> string -> Q)
    (d : Doc) (segments : list TextSegment) (maxW bi : Q) (f : string)
    (Hblank : blankSegments segments = true) :
  splitTextToLines measure d segments maxW bi f = ([], d).
Proof.
  unfold splitTextToLines.
  assert (Hfold : forall acc,
             fold_left (placeSegment measure f (maxW - bi * JsPDF.getFontSize d)
                                     (getTextWidth measure d Str.space))
                       segments acc = acc).
  { induction segments as [|s segments IH]; intros acc; simpl; [reflexivity|].
    unfold blankSegments in Hblank. simpl in Hblank.
    apply andb_prop in Hblank. destruct Hblank as [Hs Hrest].
    unfold placeSegment at 2.
    rewrite placeWords_blank by (now apply splitWsFrom_blank).
    now apply IH. }
  rewrite Hfold. reflexivity.
Qed.

Lemma splitTextToLines_blank_witness :
  blankSegments [plain "  "; mkSeg " " boldStyle] = true
  /\ splitTextToLines monoMeasure (plainDoc 12) [plain "  "; mkSeg " " boldStyle]
                      100 0 "Helvetica"
     = ([], plainDoc 12).
Proof.
  split; [reflexivity|].
  apply (splitTextToLines_blank monoMeasure (plainDoc 12)
           [plain "  "; mkSeg " " boldStyle] 100 0 "Helvetica").
  reflexivity.
Defined.

(** ** The pieces of the broken lines *)




Section Pieces.

Variable measure : string -> FontStyle -> Q -> string -> Q.
Variable styles : list TextStyle.











End Pieces.



(** ** The page driver: the cursor and the page bottom *)

Lemma extendsWith_canvas (P : DrawCall -> Prop) (d d1 : Doc) :
  sameCanvas d d1 -> extendsWith P d d1.
Proof.
  intros [Hc Hp]. split; [exact Hp|]. exists []. rewrite app_nil_r. auto.
Qed.

Lemma extendsWith_trans (P : DrawCall -> Prop) (d d1 d2 : Doc) :
  extendsWith P d d1 -> extendsWith P d1 d2 -> extendsWith P d d2.
Proof.
  intros [Hp1 (n1 & Hn1 & Hf1)] [Hp2 (n2 & Hn2 & Hf2)]. split; [congruence|].
  exists (n1 ++ n2). split; [rewrite Hn2, Hn1; symmetry; apply app_assoc|].
  apply Forall_app. now split.
Qed.

Lemma extendsWith_drawText (P : DrawCall -> Prop) (t : string) (x y : Q) (d : Doc) :
  P (mkDraw t x y (docFont d) (docFontStyle d) (docFontSize d)) ->
  extendsWith P d (JsPDF.drawText t x y d).
Proof.
  intros H. split; [reflexivity|]. eexists. split; [reflexivity|].
  constructor; [exact H | constructor].
Qed.

Lemma gtb_false_le (a b : Q) : Num.gtb a b = false -> a <= b.
Proof. unfold Num.gtb. intros H. now apply negb_false_iff, Qle_bool_iff in H. Qed.

Section Cursor.

Variable measure : string -> FontStyle -> Q -> string -> Q.
Variables (o : PDFMarkdownOptions) (lineH maxY : Q).

Lemma placeLine_onPage (p : Placement) (segs : Line) (y : Q) (isLast : bool)
    (d : Doc) :
  y <= maxY ->
  extendsWith (onPage maxY) d (placeLine measure o p segs y isLast d).
Proof.
  intros Hy. destruct (placeLine_draws measure o p segs y isLast d)
    as [Hp (new & Hn & Hm)].
  split; [exact Hp|]. exists new. split; [exact Hn|].
  apply (f_equal (map snd)) in Hm. rewrite !map_map in Hm. simpl in Hm.
  apply map_constant in Hm. eapply Forall_impl; [|exact Hm].
  intros c Hc. unfold onPage. now rewrite Hc.
Qed.

Lemma renderLines_cursor (p : Placement) (len : nat) (ls : list Line) :
  forall (index : nat) (currentY : Q) (d : Doc),
    (0 <= lineH ->
     currentY <= fst (renderLines measure o p lineH maxY len ls index currentY d))
    /\ extendsWith (onPage maxY) d
         (snd (renderLines measure o p lineH maxY len ls index currentY d)).
Proof.
  induction ls as [|l ls IH]; intros index currentY d; cbn [renderLines].
  - split; [intros _; simpl; lra | apply extendsWith_canvas, sameCanvas_refl].
  - destruct (Num.gtb currentY maxY) eqn:Hgt; [apply IH|].
    apply gtb_false_le in Hgt.
    match goal with
    | |- context [renderLines measure o p lineH maxY len ls (S index) ?y1 ?d1] =>
        destruct (IH (S index) y1 d1) as [Hy He]
    end.
    split.
    + intros HlineH. specialize (Hy HlineH).
      destruct (Z.of_nat index <? Z.of_nat len - 1)%Z; lra.
    + eapply extendsWith_trans; [|exact He]. now apply placeLine_onPage.
Qed.

Lemma layoutBlock_cursor (p : Placement) (content : string)
    (breakWidth bi currentY : Q) (d : Doc) :
  (0 <= lineH ->
   currentY <= fst (layoutBlock measure o p lineH maxY content breakWidth bi
                                currentY d))
  /\ extendsWith (onPage maxY) d
       (snd (layoutBlock measure o p lineH maxY content breakWidth bi currentY d)).
Proof.
  unfold layoutBlock.
  pose proof (splitTextToLines_canvas measure d (parseInlineMarkdown content)
                breakWidth bi (font o)) as Hc.
  destruct (splitTextToLines measure d (parseInlineMarkdown content)
                             breakWidth bi (font o)) as [ls d1].
  simpl in Hc.
  destruct (renderLines_cursor p (List.length ls) ls 0 currentY d1) as [Hy He].
  split; [exact Hy|].
  eapply extendsWith_trans; [apply extendsWith_canvas; exact Hc | exact He].
Qed.

Lemma layoutLines_cursor (x : Q) (textLines : list string) :
  forall (currentY : Q) (d : Doc),
    (0 <= lineH ->
     currentY <= fst (layoutLines measure o x lineH maxY textLines currentY d))
    /\ extendsWith (onPage maxY) d
         (snd (layoutLines measure o x lineH maxY textLines currentY d)).
Proof.
  induction textLines as [|raw rest IH]; intros currentY d; cbn [layoutLines].
  - split; [intros _; simpl; lra | apply extendsWith_canvas, sameCanvas_refl].
  - destruct (negb (Str.nonEmpty (Str.trim raw))).
    { destruct (IH (currentY + lineH) d) as [Hy He]. split; [|exact He].
      intros H. specialize (Hy H). lra. }
    destruct (Num.gtb (currentY + lineH) maxY) eqn:Hfull.
    { split; [intros _; simpl; lra | apply extendsWith_canvas, sameCanvas_refl]. }
    apply gtb_false_le in Hfull.
    destruct (headerMatch (Str.trim raw)) as [[level content]|].
    { match goal with
      | |- context [layoutBlock measure o ?p lineH maxY content ?w ?bi ?y1 ?d2] =>
          destruct (layoutBlock_cursor p content w bi y1 d2) as [Hy He];
          destruct (layoutBlock measure o p lineH maxY content w bi y1 d2)
            as [currentY2 d3]
      end.
      simpl in Hy, He.
      match goal with
      | |- context [layoutLines measure o x lineH maxY rest currentY2 ?d5] =>
          destruct (IH currentY2 d5) as [Hy2 He2]
      end.
      split.
      - intros H. specialize (Hy H). specialize (Hy2 H). lra.
      - eapply extendsWith_trans; [|exact He2].
        eapply extendsWith_trans; [|apply extendsWith_canvas; split; reflexivity].
        eapply extendsWith_trans; [|exact He].
        apply extendsWith_canvas. split; reflexivity. }
    destruct (orderedListMatch (Str.trim raw)) as [[listNumber content]|].
    { match goal with
      | |- context [layoutBlock measure o ?p lineH maxY content ?w ?bi ?y1 ?d2] =>
          destruct (layoutBlock_cursor p content w bi y1 d2) as [Hy He];
          destruct (layoutBlock measure o p lineH maxY content w bi y1 d2)
            as [currentY2 d3]
      end.
      simpl in Hy, He. destruct (IH currentY2 d3) as [Hy2 He2].
      split.
      - intros H. specialize (Hy H). specialize (Hy2 H). lra.
      - eapply extendsWith_trans; [|exact He2].
        eapply extendsWith_trans; [|exact He].
        apply extendsWith_drawText. exact Hfull. }
    destruct (unorderedListMatch (Str.trim raw)) as [content|].
    { match goal with
      | |- context [layoutBlock measure o ?p lineH maxY content ?w ?bi ?y1 ?d2] =>
          destruct (layoutBlock_cursor p content w bi y1 d2) as [Hy He];
          destruct (layoutBlock measure o p lineH maxY content w bi y1 d2)
            as [currentY2 d3]
      end.
      simpl in Hy, He. destruct (IH currentY2 d3) as [Hy2 He2].
      split.
      - intros H. specialize (Hy H). specialize (Hy2 H). lra.
      - eapply extendsWith_trans; [|exact He2].
        eapply extendsWith_trans; [|exact He].
        apply extendsWith_drawText. exact Hfull. }
    match goal with
    | |- context [layoutBlock measure o ?p lineH maxY ?content ?w ?bi ?y1 ?d2] =>
        destruct (layoutBlock_cursor p content w bi y1 d2) as [Hy He];
        destruct (layoutBlock measure o p lineH maxY content w bi y1 d2)
          as [currentY2 d3]
    end.
    simpl in Hy, He. destruct (IH currentY2 d3) as [Hy2 He2].
    split.
    + intros H. specialize (Hy H). specialize (Hy2 H). lra.
    + eapply extendsWith_trans; [exact He | exact He2].
Qed.

End Cursor.

(** X17. Nothing is drawn below the page bottom: whatever the text, the
    options and the starting [y], [parsePDFMarkdown] keeps the drawing calls
    already in the log and every call it adds has an ordinate of at most
    [pageHeight - 20]. *)
Theorem parsePDFMarkdown_draws_on_page
    (measure : string -> FontStyle -> Q -> string -> Q)
    (d : Doc) (t : string) (x y : Q) (o : PDFMarkdownOptions) :
  exists new,
    calls (snd (parsePDFMarkdown measure d t x y o)) = calls d ++ new
    /\ Forall (fun c => dc_y c <= pageHeight d - 20) new.
Proof.
  unfold parsePDFMarkdown.
  destruct (negb (Str.nonEmpty t)).
  - exists []. simpl. now rewrite app_nil_r.
  - cbv zeta.
    match goal with
    | |- context [layoutLines measure o x ?lh ?my ?ls y ?d2] =>
        destruct (layoutLines_cursor measure o lh my x ls y d2)
          as [_ [_ (new & Hn & Hf)]]
    end.
    exists new. split; [exact Hn | exact Hf].
Qed.

(** X18. The cursor only moves down: when the effective line height
    [fontSize * 0.352778 * lineHeight] is not negative, the [y] returned by
    [parsePDFMarkdown] is at least the starting [y]. *)
Theorem parsePDFMarkdown_cursor_monotone
    (measure : string -> FontStyle -> Q -> string -> Q)
    (d : Doc) (t : string) (x y : Q) (o : PDFMarkdownOptions)
    (HlineHeight : 0 <= effectiveLineHeight o) :
  y <= fst (parsePDFMarkdown measure d t x y o).
Proof.
  unfold parsePDFMarkdown.
  destruct (negb (Str.nonEmpty t)); [simpl; lra|].
  cbv zeta.
  match goal with
  | |- context [layoutLines measure o x ?lh ?my ?ls y ?d2] =>
      destruct (layoutLines_cursor measure o lh my x ls y d2) as [Hy _]
  end.
  apply Hy. exact HlineHeight.
Qed.

Lemma parsePDFMarkdown_cursor_monotone_witness :
  0 <= effectiveLineHeight (tenPointOptions None 142)
  /\ 0 <= fst (parsePDFMarkdown monoMeasure shortPage titleInput 0 0
                                (tenPointOptions None 142)).
Proof.
  assert (H : 0 <= effectiveLineHeight (tenPointOptions None 142))
    by (vm_compute; intros E; discriminate E).
  split; [exact H|].
  apply (parsePDFMarkdown_cursor_monotone monoMeasure shortPage titleInput 0 0
                                          (tenPointOptions None 142) H).
Defined.

(** ** Blank lines *)

Lemma fold_add_constant (h : Q) (ls : list string) :
  forall y0 : Q,
    fold_left (fun (y : Q) (_ : string) => y + h) ls y0
    == y0 + Num.ofNat (List.length ls) * h.
Proof.
  induction ls as [|l ls IH]; intros y0; cbn [fold_left List.length].
  - change (Num.ofNat 0) with 0. lra.
  - rewrite IH, ofNat_succ. lra.
Qed.

Lemma layoutLines_blank
    (measure : string -> FontStyle -> Q -> string -> Q)
    (o : PDFMarkdownOptions) (x lineH maxY : Q) (ls : list string) :
  forall (currentY : Q) (d : Doc),
    blankLines ls = true ->
    layoutLines measure o x lineH maxY ls currentY d
    = (fold_left (fun (y : Q) (_ : string) => y + lineH) ls currentY, d).
Proof.
  induction ls as [|l ls IH]; intros currentY d Hb; cbn [layoutLines fold_left].
  - reflexivity.
  - unfold blankLines in Hb. simpl in Hb. apply andb_prop in Hb.
    destruct Hb as [Hl Hb]. rewrite Hl. now apply IH.
Qed.

(** X19. Blank lines only move the cursor: when every line of a non-empty
    text is blank, [parsePDFMarkdown] draws nothing and returns the starting
    [y] advanced by one effective line height per line; no page check applies
    to blank lines. *)
Theorem parsePDFMarkdown_blank_lines
    (measure : string -> FontStyle -> Q -> string -> Q)
    (d : Doc) (t : string) (x y : Q) (o : PDFMarkdownOptions)
    (Htext : Str.nonEmpty t = true)
    (Hblank : blankLines (textLinesOf t) = true) :
  calls (snd (parsePDFMarkdown measure d t x y o)) = calls d
  /\ fst (parsePDFMarkdown measure d t x y o)
     == y + Num.ofNat (List.length (textLinesOf t)) * effectiveLineHeight o.
Proof.
  unfold parsePDFMarkdown. rewrite Htext. cbn [negb]. cbv zeta.
  fold (textLinesOf t). rewrite (layoutLines_blank _ _ _ _ _ _ _ _ Hblank).
  split; [reflexivity|]. cbn [fst]. apply fold_add_constant.
Qed.

Lemma parsePDFMarkdown_blank_lines_witness :
  Str.nonEmpty ("  " ++ Str.newline ++ " ")%string = true
  /\ blankLines (textLinesOf ("  " ++ Str.newline ++ " ")%string) = true
  /\ calls (snd (parsePDFMarkdown monoMeasure shortPage
                   ("  " ++ Str.newline ++ " ")%string 0 7
                   (tenPointOptions None 142)))
     = calls shortPage
  /\ fst (parsePDFMarkdown monoMeasure shortPage
            ("  " ++ Str.newline ++ " ")%string 0 7 (tenPointOptions None 142))
     == 7 + Num.ofNat (List.length (textLinesOf ("  " ++ Str.newline ++ " ")%string))
            * effectiveLineHeight (tenPointOptions None 142).
Proof.
  split; [reflexivity|]. split; [reflexivity|].
  apply (parsePDFMarkdown_blank_lines monoMeasure shortPage
           ("  " ++ Str.newline ++ " ")%string 0 7 (tenPointOptions None 142));
    reflexivity.
Defined.

(** ** Normalisation of the text *)

Lemma collapseNewlines_head (c : ascii) (r : string) :
  isLF c = false ->
  collapseNewlines (String c r) = String c (collapseNewlines r).
Proof. intros H. simpl. unfold isLF in H. now rewrite H. Qed.

Lemma collapseNewlines_no_double (s : string) :
  hasDoubleNewline (collapseNewlines s) = false.
Proof.
  induction s as [|c r IH]; [reflexivity|].
  destruct (isLF c) eqn:Hc.
  - simpl. unfold isLF in Hc. rewrite Hc.
    destruct r as [|c1 r1]; [simpl; fold (isLF c); unfold isLF; now rewrite Hc|].
    destruct (Ascii.eqb c1 "010"%char) eqn:Hc1; [exact IH|].
    cbn [hasDoubleNewline]. rewrite IH, orb_false_r.
    rewrite (collapseNewlines_head c1 r1 Hc1). simpl.
    unfold isLF at 2. rewrite Hc1. apply andb_false_r.
  - rewrite (collapseNewlines_head c r Hc). cbn [hasDoubleNewline].
    now rewrite Hc, IH.
Qed.

Lemma collapseNewlines_fixed (s : string) :
  hasDoubleNewline s = false -> collapseNewlines s = s.
Proof.
  induction s as [|c r IH]; intros H; [reflexivity|].
  cbn [hasDoubleNewline] in H. apply orb_false_elim in H. destruct H as [H1 H2].
  destruct (isLF c) eqn:Hc.
  - simpl. unfold isLF in Hc. rewrite Hc.
    destruct r as [|c1 r1]; [reflexivity|].
    simpl in H1. unfold isLF in H1. rewrite H1. f_equal. now apply IH.
  - rewrite (collapseNewlines_head c r Hc). f_equal. now apply IH.
Qed.

Lemma replaceDashes_unfold (c : ascii) (r : string) :
  replaceDashes (String c r)
  = if startsWithTripleDash (String c r)
    then String "010"%char (replaceDashes (Str.drop 2 r))
    else String c (replaceDashes r).
Proof.
  destruct c as [[] [] [] [] [] [] [] []]; try (destruct r; reflexivity);
    try (destruct r as [|c2 [|c3 r3]]; reflexivity).
  destruct r as [|c2 r2]; [reflexivity|].
  destruct c2 as [[] [] [] [] [] [] [] []]; try (destruct r2; reflexivity).
  destruct r2 as [|c3 r3]; [reflexivity|].
  destruct c3 as [[] [] [] [] [] [] [] []]; reflexivity.
Qed.

Lemma replaceDashes_dash_head (s : string) :
  startsWithP isDash (replaceDashes s) = true ->
  startsWithTripleDash s = false
  /\ exists c r, s = String c r /\ isDash c = true
                 /\ replaceDashes s = String c (replaceDashes r).
Proof.
  destruct s as [|c r]; [discriminate|].
  rewrite replaceDashes_unfold.
  destruct (startsWithTripleDash (String c r)); [discriminate|].
  intros H. split; [reflexivity|]. exists c, r. auto.
Qed.

Lemma replaceDashes_no_triple_head (s : string) :
  startsWithTripleDash (replaceDashes s) = false.
Proof.
  destruct s as [|c r]; [reflexivity|].
  destruct (startsWithTripleDash (String c r)) eqn:T.
  - rewrite replaceDashes_unfold, T.
    now destruct (replaceDashes (Str.drop 2 r)) as [|? [|? ?]].
  - rewrite replaceDashes_unfold, T.
    destruct (replaceDashes r) as [|c2 X] eqn:E1; [reflexivity|].
    destruct X as [|c3 Y]; [reflexivity|].
    cbn [startsWithTripleDash].
    destruct (isDash c) eqn:Hc; [|reflexivity].
    destruct (isDash c2) eqn:Hc2; [|reflexivity].
    destruct (isDash c3) eqn:Hc3; [|reflexivity].
    exfalso.
    destruct (replaceDashes_dash_head r) as (_ & c2' & r2 & Hr & Hd2 & E2).
    { rewrite E1. exact Hc2. }
    rewrite E1 in E2. injection E2 as <- E3.
    destruct (replaceDashes_dash_head r2) as (_ & c3' & r3 & Hr2 & Hd3 & _).
    { rewrite <- E3. exact Hc3. }
    subst r r2. cbn [startsWithTripleDash] in T.
    rewrite Hc, Hd2, Hd3 in T. discriminate T.
Qed.

Lemma drop_length_le (n : nat) (s : string) :
  (String.length (Str.drop n s) <= String.length s)%nat.
Proof.
  revert s. induction n as [|n IH]; intros s; [simpl; lia|].
  destruct s as [|c s]; simpl; [lia|]. specialize (IH s). lia.
Qed.

Lemma replaceDashes_no_triple (s : string) :
  hasTripleDash (replaceDashes s) = false.
Proof.
  induction s as [s IH] using string_length_ind.
  destruct s as [|c r]; [reflexivity|].
  pose proof (replaceDashes_no_triple_head (String c r)) as Hhead.
  rewrite replaceDashes_unfold in *.
  destruct (startsWithTripleDash (String c r)).
  - cbn [hasTripleDash]. rewrite Hhead. simpl orb.
    apply IH. pose proof (drop_length_le 2 r) as Hd. simpl in Hd |- *. lia.
  - cbn [hasTripleDash]. rewrite Hhead. simpl orb.
    apply IH. simpl. lia.
Qed.

(** X20. Normalisation of the text: after [replace(/---/g, '\n')] no three
    consecutive dashes are left, after [replace(/\n{2,}/g, '\n')] no two
    consecutive line feeds are left, and collapsing the line feeds a second
    time changes nothing. *)
Theorem normalisation_is_complete (s : string) :
  hasTripleDash (replaceDashes s) = false
  /\ hasDoubleNewline (collapseNewlines s) = false
  /\ collapseNewlines (collapseNewlines s) = collapseNewlines s.
Proof.
  split; [apply replaceDashes_no_triple|].
  split; [apply collapseNewlines_no_double|].
  apply collapseNewlines_fixed, collapseNewlines_no_double.
Qed.

(** ** Line breaking keeps the font size *)

Lemma fitLines_size (measure : string -> FontStyle -> Q -> string -> Q)
    (f : string) (sz sp W : Q) (ls : list Line) :
  forall d : Doc,
    Forall (goodLine measure f sz sp W) ls ->
    docFontSize d = sz ->
    docFontSize (snd (fitLines measure f W sp d ls)) = sz.
Proof.
  induction ls as [|l ls IH]; intros d Hgood Hsz; simpl; [exact Hsz|].
  apply Forall_cons_iff in Hgood. destruct Hgood as [Hl Hgood].
  destruct (fitLine_inv measure f sz sp W d l Hl Hsz) as [_ Hsz1].
  destruct (fitLine measure f W sp d l) as [l1 d1]. cbn [fst snd] in *.
  specialize (IH d1 Hgood Hsz1).
  destruct (fitLines measure f W sp d1 ls) as [rest1 d2]. exact IH.
Qed.

(** X21. Line breaking keeps the font size: for segments without heading
    level, the document leaves [splitTextToLines] at the font size it entered
    with, which is the size the renderer of a justified line then reads. *)
Theorem splitTextToLines_keeps_font_size
    (measure : string -> FontStyle -> Q -> string -> Q)
    (d : Doc) (segments : list TextSegment) (maxW bi : Q) (f : string)
    (Hstyles : noHeading segments = true) :
  docFontSize (snd (splitTextToLines measure d segments maxW bi f))
  = docFontSize d.
Proof.
  unfold splitTextToLines, JsPDF.getFontSize.
  set (sz := docFontSize d). set (sp := getTextWidth measure d Str.space).
  set (W := maxW - bi * sz).
  assert (H0 : BreakerInv measure f sz sp W (mkBreaker [[]] 0 0 [])).
  { constructor; simpl.
    - exists []. repeat split. constructor.
    - constructor.
    - lra.
    - now left. }
  destruct (placeSegments_inv measure f sz sp W segments
              (mkBreaker [[]] 0 0 [], d) Hstyles H0 eq_refl) as [H1 Hsz1].
  destruct (fold_left _ segments (mkBreaker [[]] 0 0 [], d)) as [b1 d1].
  cbn [fst snd] in H1, Hsz1. cbv beta iota zeta.
  set (b2 := if nonEmptyLine (currentLineSegments b1) then commitLine b1 else b1).
  assert (H2 : BreakerInv measure f sz sp W b2).
  { unfold b2. destruct (nonEmptyLine (currentLineSegments b1));
      [now apply commitLine_inv | exact H1]. }
  destruct H2 as [(committed & Hl & _ & Hgood) _ _ _].
  rewrite Hl, (filter_committed measure f sz sp W committed Hgood).
  now apply (fitLines_size measure f sz sp W).
Qed.

Lemma splitTextToLines_keeps_font_size_witness :
  noHeading (parseInlineMarkdown "a **very** long line") = true
  /\ docFontSize (snd (splitTextToLines monoMeasure (plainDoc 12)
                         (parseInlineMarkdown "a **very** long line")
                         40 (1 # 4) "Helvetica"))
     = docFontSize (plainDoc 12).
Proof.
  split; [reflexivity|].
  apply (splitTextToLines_keeps_font_size monoMeasure (plainDoc 12)
           (parseInlineMarkdown "a **very** long line") 40 (1 # 4) "Helvetica").
  reflexivity.
Defined.

(** ** List items get the list indentation *)

Lemma rev_acc_append (s acc : string) :
  Str.rev_acc s acc = (Str.rev s ++ acc)%string.
Proof.
  unfold Str.rev. revert acc.
  induction s as [|c s IH]; intros acc; simpl; [reflexivity|].
  rewrite (IH (String c acc)), (IH (String c EmptyString)).
  now rewrite append_assoc.
Qed.

Lemma rev_append (a b : string) :
  Str.rev (a ++ b) = (Str.rev b ++ Str.rev a)%string.
Proof.
  induction a as [|c a IH]; simpl.
  - now rewrite append_empty_r.
  - unfold Str.rev in *. simpl.
    rewrite (rev_acc_append (a ++ b)), (rev_acc_append a).
    unfold Str.rev. rewrite IH. now rewrite append_assoc.
Qed.

Lemma rev_involutive (s : string) : Str.rev (Str.rev s) = s.
Proof.
  induction s as [|c s IH]; [reflexivity|].
  unfold Str.rev at 2. simpl. rewrite rev_acc_append, rev_append, IH.
  reflexivity.
Qed.

(** The trimmed line is a prefix of the line without its leading whitespace. *)
Lemma trim_prefix (s : string) :
  exists v, Str.dropWhile Str.isSpace s = (Str.trim s ++ v)%string.
Proof.
  unfold Str.trim. set (u := Str.dropWhile Str.isSpace s).
  exists (Str.rev (Str.takeWhile Str.isSpace (Str.rev u))).
  rewrite <- rev_append, takeWhile_dropWhile. now rewrite rev_involutive.
Qed.

Lemma matchSpacesContent_space (r : string) :
  matchSpacesContent r <> None -> startsWithSpace r = true.
Proof.
  unfold matchSpacesContent, leadingWhitespace. destruct r as [|c r]; simpl.
  - congruence.
  - destruct (Str.isSpace c); [reflexivity | simpl; congruence].
Qed.

Lemma startsWithSpace_append (r v : string) :
  startsWithSpace r = true -> startsWithSpace (r ++ v) = true.
Proof. destruct r; [discriminate | auto]. Qed.

Lemma dropWhile_append (p : ascii -> bool) (a b : string) :
  Str.dropWhile p a <> EmptyString ->
  Str.dropWhile p (a ++ b) = (Str.dropWhile p a ++ b)%string.
Proof.
  induction a as [|c a IH]; simpl; [congruence|].
  destruct (p c); [exact IH | reflexivity].
Qed.

Lemma listItem_marker (line v : string) :
  orderedListMatch line <> None \/ unorderedListMatch line <> None ->
  startsWithListMarker (line ++ v) = true.
Proof.
  intros [H | H].
  - unfold orderedListMatch in H. destruct line as [|c l]; [now simpl in H|].
    simpl in H. destruct (Str.isDigit c) eqn:Hd; [|now simpl in H].
    simpl in H. simpl.
    assert (Hb : isBullet c = false).
    { destruct (isBullet c) eqn:E; [|reflexivity].
      rewrite (isBullet_class c E) in Hd. discriminate Hd. }
    rewrite Hb, Hd.
    destruct (Str.dropWhile Str.isDigit l) as [|c1 r] eqn:E; [congruence|].
    rewrite dropWhile_append by (rewrite E; discriminate). rewrite E. simpl.
    destruct (Ascii.eqb_spec c1 "."%char) as [-> | Hc].
    + apply startsWithSpace_append, matchSpacesContent_space.
      destruct (matchSpacesContent r); congruence.
    + exfalso. apply H. destruct c1 as [[] [] [] [] [] [] [] []]; try reflexivity.
      congruence.
  - unfold unorderedListMatch in H. destruct line as [|c r]; [congruence|].
    simpl. destruct (isBullet c); [|congruence].
    now apply startsWithSpace_append, matchSpacesContent_space.
Qed.

(** X22. List items get the list indentation: every line the driver
    recognises, once trimmed, as an ordered or unordered list item is a list
    line for [calculateIndentation] too, and its base indentation is 0.25 for
    every two leading whitespace characters plus 0.25. *)
Theorem list_item_indentation (raw : string)
    (Hitem : orderedListMatch (Str.trim raw) <> None
             \/ unorderedListMatch (Str.trim raw) <> None) :
  listMatch raw = true
  /\ calculateIndentation raw
     == Num.ofNat (leadingWhitespace raw / 2) * (1 # 4) + (1 # 4).
Proof.
  assert (Hl : listMatch raw = true).
  { unfold listMatch. destruct (trim_prefix raw) as [v ->].
    now apply listItem_marker. }
  split; [exact Hl|]. rewrite (calculateIndentation_list raw Hl). lra.
Qed.

Lemma list_item_indentation_witness :
  (orderedListMatch (Str.trim "    12. twelve ") <> None
   \/ unorderedListMatch (Str.trim "    12. twelve ") <> None)
  /\ listMatch "    12. twelve " = true
  /\ calculateIndentation "    12. twelve "
     == Num.ofNat (leadingWhitespace "    12. twelve " / 2) * (1 # 4) + (1 # 4).
Proof.
  assert (H : orderedListMatch (Str.trim "    12. twelve ") <> None
              \/ unorderedListMatch (Str.trim "    12. twelve ") <> None)
    by (left; vm_compute; discriminate).
  split; [exact H|].
  apply (list_item_indentation "    12. twelve " H).
Defined.

(** ** wrapText *)

Lemma splitOnFrom_noBlank (s : string) :
  forall cur : string,
    noBlank cur = true ->
    Forall (fun w => noBlank w = true) (splitOnFrom " "%char s cur).
Proof.
  induction s as [|c s IH]; intros cur Hcur; simpl.
  - repeat constructor. exact Hcur.
  - destruct (Ascii.eqb c " "%char) eqn:Hc.
    + constructor; [exact Hcur | now apply IH].
    + apply IH. unfold noBlank, Str.snoc in *.
      clear IH. induction cur as [|x cur IHc]; simpl in *.
      * now rewrite Hc.
      * apply andb_prop in Hcur. destruct Hcur as [Hx Hcur].
        now rewrite Hx, (IHc Hcur).
Qed.

Lemma ofNat_le (a b : nat) : (a <= b)%nat -> Num.ofNat a <= Num.ofNat b.
Proof.
  intros H. unfold Num.ofNat. rewrite <- Zle_Qle. lia.
Qed.

Lemma wrapStep_bounded (maxW : Q) (st : Wrap) (word : string) :
  Forall (wrapBounded maxW) (wrapLines st) ->
  wrapBounded maxW (wrapCurrentLine st) ->
  noBlank word = true ->
  Forall (wrapBounded maxW) (wrapLines (wrapStep maxW st word))
  /\ wrapBounded maxW (wrapCurrentLine (wrapStep maxW st word)).
Proof.
  intros Hl Hc Hw. unfold wrapStep.
  destruct (Num.leb _ maxW) eqn:Hfit; simpl.
  - split; [exact Hl|]. left. apply Qle_bool_iff in Hfit.
    eapply Qle_trans; [|exact Hfit]. apply ofNat_le.
    rewrite !length_append.
    destruct (Str.nonEmpty (wrapCurrentLine st)); simpl; lia.
  - split; [|now right].
    apply Forall_app. split; [exact Hl | constructor; [exact Hc | constructor]].
Qed.

Lemma wrapFold_bounded (maxW : Q) (words : list string) :
  forall st : Wrap,
    Forall (wrapBounded maxW) (wrapLines st) ->
    wrapBounded maxW (wrapCurrentLine st) ->
    Forall (fun w => noBlank w = true) words ->
    Forall (wrapBounded maxW) (wrapLines (fold_left (wrapStep maxW) words st))
    /\ wrapBounded maxW (wrapCurrentLine (fold_left (wrapStep maxW) words st)).
Proof.
  induction words as [|w words IH]; intros st Hl Hc Hws; cbn [fold_left].
  - now split.
  - apply Forall_cons_iff in Hws. destruct Hws as [Hw Hws].
    destruct (wrapStep_bounded maxW st w Hl Hc Hw) as [Hl1 Hc1].
    now apply IH.
Qed.

(** X23. Width of the wrapped lines: every line [wrapText] produces is at
    most [maxWidth] characters long, unless it is a single word (it holds no
    space), which is never broken. *)
Theorem wrapText_line_width (t : string) (maxW : Q) :
  Forall (fun l => Num.ofNat (String.length l) <= maxW \/ noBlank l = true)
         (wrapTextLines t maxW).
Proof.
  unfold wrapTextLines.
  destruct (wrapFold_bounded maxW (splitOn " "%char t) (mkWrap [] EmptyString))
    as [Hl Hc].
  - constructor.
  - now right.
  - now apply splitOnFrom_noBlank.
  - destruct (Str.nonEmpty _); [|exact Hl].
    apply Forall_app. split; [exact Hl | constructor; [exact Hc | constructor]].
Qed.

Lemma splitOnFrom_append (a b : string) :
  forall cur : string,
    splitOnFrom " "%char (a ++ String " "%char b) cur
    = splitOnFrom " "%char a cur ++ splitOnFrom " "%char b EmptyString.
Proof.
  induction a as [|c a IH]; intros cur; simpl; [reflexivity|].
  destruct (Ascii.eqb c " "%char); [now rewrite IH | apply IH].
Qed.

Lemma splitOnFrom_word (w : string) :
  forall cur : string,
    noBlank w = true -> splitOnFrom " "%char w cur = [(cur ++ w)%string].
Proof.
  induction w as [|c w IH]; intros cur Hw; simpl.
  - now rewrite append_empty_r.
  - unfold noBlank in Hw. simpl in Hw. apply andb_prop in Hw.
    destruct Hw as [Hc Hw]. apply negb_true_iff in Hc. rewrite Hc.
    rewrite (IH _ Hw). now rewrite snoc_append.
Qed.

Lemma wordsOf_app (l1 l2 : list string) :
  wordsOf (l1 ++ l2) = wordsOf l1 ++ wordsOf l2.
Proof. unfold wordsOf. now rewrite flat_map_app, filter_app. Qed.

Lemma wordsOf_line_word (cur w : string) :
  noBlank w = true ->
  wordsOf [(cur ++ (if Str.nonEmpty cur then " " else "") ++ w)%string]
  = wordsOf [cur] ++ filter Str.nonEmpty [w].
Proof.
  intros Hw. unfold wordsOf. simpl. rewrite !app_nil_r. unfold splitOn.
  destruct cur as [|c cur].
  - cbn [Str.nonEmpty append splitOnFrom filter].
    now rewrite (splitOnFrom_word w EmptyString Hw).
  - cbn [Str.nonEmpty].
    change (String c cur ++ " " ++ w)%string
      with (String c cur ++ String " "%char w)%string.
    rewrite splitOnFrom_append, filter_app.
    now rewrite (splitOnFrom_word w EmptyString Hw).
Qed.

Lemma wrapFold_words (maxW : Q) (words : list string) :
  forall st : Wrap,
    Forall (fun w => noBlank w = true) words ->
    wordsOf (wrapLines (fold_left (wrapStep maxW) words st)
             ++ [wrapCurrentLine (fold_left (wrapStep maxW) words st)])
    = wordsOf (wrapLines st ++ [wrapCurrentLine st]) ++ filter Str.nonEmpty words.
Proof.
  induction words as [|w words IH]; intros st Hws; cbn [fold_left].
  - simpl. now rewrite app_nil_r.
  - apply Forall_cons_iff in Hws. destruct Hws as [Hw Hws].
    rewrite (IH _ Hws). clear IH.
    change (w :: words) with ([w] ++ words). rewrite filter_app.
    rewrite app_assoc. f_equal.
    unfold wrapStep. destruct (Num.leb _ maxW); simpl.
    + rewrite !wordsOf_app, (wordsOf_line_word _ _ Hw). now rewrite app_assoc.
    + rewrite !wordsOf_app. f_equal.
      unfold wordsOf, splitOn. simpl. rewrite app_nil_r.
      now rewrite (splitOnFrom_word w EmptyString Hw).
Qed.

(** X24. [wrapText] keeps the words: the non-empty words of the wrapped
    lines, split at the spaces, are the non-empty words of the text, in the
    same order; wrapping only moves line breaks between words. *)
Theorem wrapText_keeps_words (t : string) (maxW : Q) :
  wordsOf (wrapTextLines t maxW) = filter Str.nonEmpty (splitOn " "%char t).
Proof.
  unfold wrapTextLines.
  pose proof (wrapFold_words maxW (splitOn " "%char t) (mkWrap [] EmptyString)
                (splitOnFrom_noBlank t EmptyString eq_refl)) as H.
  simpl in H.
  destruct (fold_left (wrapStep maxW) (splitOn " "%char t) (mkWrap [] EmptyString))
    as [ls cur].
  simpl in *. destruct (Str.nonEmpty cur) eqn:Hc; [exact H|].
  destruct cur; [|discriminate Hc].
  rewrite wordsOf_app in H. simpl in H. now rewrite app_nil_r in H.
Qed.

(** ** The fallback of the justifier *)

Lemma drawUnjustified_calls
    (measure : string -> FontStyle -> Q -> string -> Q)
    (y : Q) (segs : list TextSegment) :
  forall (x : Q) (d : Doc),
    noHeading segs = true ->
    calls (snd (fold_left (drawUnjustified measure y) segs (x, d)))
    = calls d ++ fallbackCalls measure (docFont d) (docFontSize d) y segs x.
Proof.
  induction segs as [|s segs IH]; intros x d Hnh; simpl.
  - now rewrite app_nil_r.
  - apply noHeading_cons in Hnh. destruct Hnh as [Hs Hnh].
    unfold JsPDF.getFontSize, JsPDF.getFontName.
    rewrite (applyStyle_noHeading _ _ _ _ Hs).
    rewrite (IH _ _ Hnh). simpl. now rewrite <- app_assoc.
Qed.

(** X25. Placement on the last line of a block under 'justify' (and on a
    line of at most one segment): the segments, without heading level, are
    drawn from [x] on, left to right, in the current font and size and each
    in the weight of its own style; after a word the cursor advances by the
    width of the word followed by a space, after a gap marker by the width of
    the gap marker. *)
Theorem renderJustifiedLine_fallback
    (measure : string -> FontStyle -> Q -> string -> Q)
    (d : Doc) (segs : list TextSegment) (x y availableWidth : Q)
    (isLastLine : bool)
    (Hstyles : noHeading segs = true)
    (Hfallback : isLastLine = true \/ (List.length segs <= 1)%nat) :
  calls (renderJustifiedLine measure d segs x y availableWidth isLastLine)
  = calls d ++ fallbackCalls measure (docFont d) (docFontSize d) y segs x.
Proof.
  unfold renderJustifiedLine.
  replace (isLastLine || (List.length segs <=? 1)%nat) with true.
  - now apply drawUnjustified_calls.
  - symmetry. destruct Hfallback as [-> | H]; [reflexivity|].
    apply Nat.leb_le in H. rewrite H. apply orb_true_r.
Qed.

Lemma renderJustifiedLine_fallback_witness :
  noHeading threeSegments = true
  /\ calls (renderJustifiedLine monoMeasure (plainDoc 12) threeSegments 0 10 100 true)
     = calls (plainDoc 12)
       ++ fallbackCalls monoMeasure (docFont (plainDoc 12))
                        (docFontSize (plainDoc 12)) 10 threeSegments 0.
Proof.
  split; [reflexivity|].
  apply (renderJustifiedLine_fallback monoMeasure (plainDoc 12) threeSegments
                                      0 10 100 true);
    [reflexivity | now left].
Defined.

(** ** Content gives at least one line *)

Lemma splitWsFrom_pending (s : string) :
  forall cur : string,
    cur <> EmptyString ->
    Exists (fun w => w <> EmptyString) (splitWsFrom s cur false).
Proof.
  induction s as [|c s IH]; intros cur Hcur; simpl.
  - now constructor.
  - destruct (Str.isSpace c); [now constructor|].
    apply IH, snoc_not_empty.
Qed.

Lemma splitWsFrom_has_word (s : string) :
  forall (cur : string) (inSep : bool),
    Str.forallb Str.isSpace s = false ->
    Exists (fun w => w <> EmptyString) (splitWsFrom s cur inSep).
Proof.
  induction s as [|c s IH]; intros cur inSep H; [discriminate|].
  simpl in *. destruct (Str.isSpace c).
  - simpl in H. destruct inSep; [|apply Exists_cons_tl]; now apply IH.
  - apply splitWsFrom_pending, snoc_not_empty.
Qed.

Section Content.

Variable measure : string -> FontStyle -> Q -> string -> Q.

Lemma commitLine_shape (b : Breaker) :
  breakerShape b ->
  breakerShape (commitLine b)
  /\ currentLineSegments (commitLine b) = []
  /\ (hasContent b -> (1 < List.length (lines (commitLine b)))%nat).
Proof.
  intros (committed & Hl & Hc & Hne). unfold commitLine.
  destruct (nonEmptyLine (currentLineSegments b)) eqn:E.
  - assert (Hlines : jsSet [] (jsSet [] (lines b) (currentLine b)
                                     (currentLineSegments b))
                           (S (currentLine b)) []
                     = (committed ++ [currentLineSegments b]) ++ [[]]).
    { rewrite Hl, Hc, jsSet_last.
      replace (S (List.length committed))
        with (List.length (committed ++ [currentLineSegments b]))
        by (rewrite length_app; simpl; lia).
      apply jsSet_end. }
    cbn [lines currentLine currentLineSegments]. rewrite Hlines.
    split; [|split; [reflexivity|]].
    + exists (committed ++ [currentLineSegments b]).
      split; [reflexivity|]. split; [rewrite Hc, length_app; simpl; lia|].
      apply Forall_app. split; [exact Hne | constructor; [exact E | constructor]].
    + intros _. rewrite !length_app. simpl. lia.
  - split; [now exists committed|]. split; [now apply nonEmptyLine_false|].
    intros [H | H]; [exact H|]. apply nonEmptyLine_false in E. congruence.
Qed.

Lemma pushSegment_shape (s : TextSegment) (w : Q) (b : Breaker) :
  breakerShape b ->
  breakerShape (pushSegment s w b) /\ hasContent (pushSegment s w b).
Proof.
  intros H. split; [exact H|]. right. simpl. now destruct (currentLineSegments b).
Qed.

Lemma placeParts_shape (d : Doc) (parts : list TextSegment) :
  forall (index : nat) (b : Breaker),
    breakerShape b ->
    breakerShape (placeParts measure d parts index b)
    /\ (hasContent b \/ parts <> [] ->
        hasContent (placeParts measure d parts index b)).
Proof.
  induction parts as [|p parts IH]; intros index b Hb; simpl.
  - split; [exact Hb|]. intros [H | H]; [exact H | congruence].
  - set (b1 := if (0 <? index)%nat then commitLine b else b).
    assert (H1 : breakerShape b1)
      by (unfold b1; destruct (0 <? index)%nat;
          [now apply commitLine_shape | exact Hb]).
    destruct (pushSegment_shape p (getTextWidth measure d (text p)) b1 H1)
      as [H2 H3].
    destruct (IH (S index) _ H2) as [H4 H5].
    split; [exact H4|]. intros _. apply H5. now left.
Qed.

Lemma placeWord_shape (f : string) (W sp : Q) (st : TextStyle)
    (b : Breaker) (d : Doc) (word : string) :
  breakerShape b ->
  breakerShape (fst (placeWord measure f W sp st (b, d) word))
  /\ (hasContent b \/ word <> EmptyString ->
      hasContent (fst (placeWord measure f W sp st (b, d) word))).
Proof.
  intros Hb. unfold placeWord.
  destruct (Str.nonEmpty word) eqn:Hne; simpl negb; cbv iota.
  2:{ split; [exact Hb|]. intros [H | H]; [exact H|].
      destruct word; [congruence | discriminate Hne]. }
  assert (Hword : word <> EmptyString) by (destruct word; discriminate).
  destruct (Num.leb _ W).
  - simpl fst.
    assert (H1 : breakerShape
                   (if nonEmptyLine (currentLineSegments b)
                    then pushSegment (mkSeg Str.space st)
                                     (currentLineWidth b + sp) b
                    else b))
      by (destruct (nonEmptyLine (currentLineSegments b)); exact Hb).
    match goal with
    | |- breakerShape (pushSegment ?s ?w ?b0) /\ _ =>
        destruct (pushSegment_shape s w b0 H1) as [H2 H3]
    end.
    split; [exact H2 | intros _; exact H3].
  - destruct (Num.leb _ W).
    + simpl fst. destruct (commitLine_shape b Hb) as [H1 _].
      destruct (pushSegment_shape (mkSeg word st)
                  (getTextWidth measure (applyStyle d st (JsPDF.getFontSize d) f) word)
                  _ H1) as [H2 H3].
      split; [exact H2 | intros _; exact H3].
    + destruct (splitWordIfNeeded_blocks measure
                  (applyStyle d st (JsPDF.getFontSize d) f) st W word)
        as (bs & _ & Ht & _ & _ & Hnb).
      destruct (Hnb Hword) as [Hbs _].
      destruct (splitWordIfNeeded measure word st _ W) as [parts d2].
      simpl in *.
      assert (Hparts : parts <> []).
      { intros ->. simpl in Ht. destruct bs; [congruence | discriminate Ht]. }
      assert (H1 : breakerShape
                     (if nonEmptyLine (currentLineSegments b)
                      then commitLine b else b))
        by (destruct (nonEmptyLine (currentLineSegments b));
            [now apply commitLine_shape | exact Hb]).
      destruct (placeParts_shape d2 parts 0 _ H1) as [H2 H3].
      split; [exact H2 | intros _; apply H3; now right].
Qed.

Lemma placeWords_shape (f : string) (W sp : Q) (st : TextStyle)
    (words : list string) :
  forall acc : Breaker * Doc,
    breakerShape (fst acc) ->
    breakerShape (fst (fold_left (placeWord measure f W sp st) words acc))
    /\ (hasContent (fst acc) \/ Exists (fun w => w <> EmptyString) words ->
        hasContent (fst (fold_left (placeWord measure f W sp st) words acc))).
Proof.
  induction words as [|w words IH]; intros [b d] Hb; cbn [fold_left].
  - split; [exact Hb|]. intros [H | H]; [exact H | inversion H].
  - destruct (placeWord_shape f W sp st b d w Hb) as [H1 H2].
    destruct (placeWord measure f W sp st (b, d) w) as [b1 d1].
    cbn [fst] in *. destruct (IH (b1, d1) H1) as [H3 H4].
    split; [exact H3|]. intros [H | H].
    + apply H4. left. apply H2. now left.
    + apply Exists_cons in H. destruct H as [H | H].
      * apply H4. left. apply H2. now right.
      * apply H4. now right.
Qed.

Lemma placeSegments_shape (f : string) (W sp : Q) (segments : list TextSegment) :
  forall acc : Breaker * Doc,
    breakerShape (fst acc) ->
    breakerShape (fst (fold_left (placeSegment measure f W sp) segments acc))
    /\ (hasContent (fst acc) \/ blankSegments segments = false ->
        hasContent (fst (fold_left (placeSegment measure f W sp) segments acc))).
Proof.
  induction segments as [|s segments IH]; intros acc Hb; cbn [fold_left].
  - split; [exact Hb|]. intros [H | H]; [exact H | discriminate H].
  - destruct (placeWords_shape f W sp (style s) (splitWs (text s)) acc Hb)
      as [H1 H2].
    destruct (IH _ H1) as [H3 H4]. split; [exact H3|].
    intros [H | H].
    + apply H4. left. apply H2. now left.
    + unfold blankSegments in H. simpl in H. apply andb_false_iff in H.
      destruct H as [H | H].
      * apply H4. left. apply H2. right. now apply splitWsFrom_has_word.
      * apply H4. now right.
Qed.

Lemma fitLines_length (f : string) (W sp : Q) (ls : list Line) :
  forall d : Doc,
    List.length (fst (fitLines measure f W sp d ls)) = List.length ls.
Proof.
  induction ls as [|l ls IH]; intros d; simpl; [reflexivity|].
  destruct (fitLine measure f W sp d l) as [l1 d1]. specialize (IH d1).
  destruct (fitLines measure f W sp d1 ls) as [r d2]. simpl in *. now rewrite IH.
Qed.

End Content.

Lemma filter_shape (committed : list (list TextSegment)) :
  Forall (fun l => nonEmptyLine l = true) committed ->
  filter nonEmptyLine (committed ++ [@nil TextSegment]) = committed.
Proof.
  induction committed as [|l ls IH]; intros H; simpl; [reflexivity|].
  apply Forall_cons_iff in H. destruct H as [Hl H].
  rewrite Hl. now rewrite (IH H).
Qed.

(** X26. Content gives at least one line: when some segment holds a
    character that is not whitespace, [splitTextToLines] returns at least one
    line (which the final pass may have emptied). *)
Theorem splitTextToLines_content
    (measure : string -> FontStyle -> Q -> string -> Q)
    (d : Doc) (segments : list TextSegment) (maxW bi : Q) (f : string)
    (Hcontent : blankSegments segments = false) :
  (1 <= List.length (fst (splitTextToLines measure d segments maxW bi f)))%nat.
Proof.
  unfold splitTextToLines.
  assert (H0 : breakerShape (mkBreaker [[]] 0 0 []))
    by (exists []; repeat split; constructor).
  destruct (placeSegments_shape measure f (maxW - bi * JsPDF.getFontSize d)
              (getTextWidth measure d Str.space) segments
              (mkBreaker [[]] 0 0 [], d) H0) as [H1 H2].
  specialize (H2 (or_intror Hcontent)).
  destruct (fold_left _ segments (mkBreaker [[]] 0 0 [], d)) as [b1 d1].
  cbn [fst] in H1, H2. cbv beta iota zeta.
  rewrite fitLines_length.
  destruct (commitLine_shape b1 H1) as [(committed & Hl & _ & Hne) [_ Hlen]].
  destruct (nonEmptyLine (currentLineSegments b1)) eqn:E.
  - specialize (Hlen H2). rewrite Hl in *. rewrite (filter_shape _ Hne).
    pose proof (length_app committed [[]]) as Ha. cbn [List.length] in Ha.
    unfold Line in *. lia.
  - unfold commitLine in Hl, Hlen. rewrite E in Hl, Hlen.
    specialize (Hlen H2). rewrite Hl in *. rewrite (filter_shape _ Hne).
    pose proof (length_app committed [[]]) as Ha. cbn [List.length] in Ha.
    unfold Line in *. lia.
Qed.

Lemma splitTextToLines_content_witness :
  blankSegments [plain " a "] = false
  /\ (1 <= List.length (fst (splitTextToLines monoMeasure (plainDoc 12)
                               [plain " a "] 1 (1 # 4) "Helvetica")))%nat.
Proof.
  split; [reflexivity|].
  apply (splitTextToLines_content monoMeasure (plainDoc 12) [plain " a "]
                                  1 (1 # 4) "Helvetica").
  reflexivity.
Defined.
